(** * DiffusionReaction: a shallow embedding of [Main.c]

    [Main.c] runs a Gray-Scott reaction-diffusion simulation on a grid of
    [Cell]s, writing each step into a second buffer and rendering a
    bitmap every [IterationCapture] iterations.

    The embedding follows the C text function by function:
    - [float] is IEEE 754 binary32, computed by the Standard Library's
      [SpecFloat] operations (round to nearest even, every operation
      rounded to single precision);
    - [int] is [Z]; the sizes of the run are the fields of a [Config], so
      that the theorems hold for every grid size and can be evaluated on
      small grids; [source_config] carries the values of [Main.c], for
      which no [int] expression of the program overflows
      ([source_ints_fit]);
    - the two heap buffers live in a store of blocks addressed by
      pointers, so that aliasing between the buffers is expressible;
    - the calls into LibBMP are recorded as a list of [event]s;
    - behaviour that C leaves undefined is a [fault]: a null or
      out-of-bounds access, a division by zero, and a floating value
      converted to an integer type that cannot hold its integral part. *)

From Stdlib Require Import ZArith List Lia String DecimalString Floats.SpecFloat.
From Stdlib Require Import Reals Lra.
From Stdlib Require DecimalPos DecimalZ.
From stdpp Require Import base list list_numbers.

Local Open Scope Z_scope.

(** ** binary32 arithmetic *)

Abbreviation float := spec_float.

Module F32.
Definition prec : Z := 24.
Definition emax : Z := 128.

Definition add : float -> float -> float := SFadd prec emax.
Definition sub : float -> float -> float := SFsub prec emax.
Definition mul : float -> float -> float := SFmul prec emax.
Definition div : float -> float -> float := SFdiv prec emax.
Definition eqb : float -> float -> bool := SFeqb.

(** The float [m * 2^e], rounded if it has to be. *)
Definition make (m e : Z) : float := binary_normalize prec emax m e false.

(** Conversion [(float) n] of an [int]. *)
Definition of_int (n : Z) : float := make n 0.

(** The integral part of a finite float: the fraction is discarded, the
    value is truncated toward zero (C11 6.3.1.4). *)
Definition trunc (f : float) : option Z :=
  match f with
  | S754_zero _ => Some 0
  | S754_finite s m e =>
      let magnitude :=
        if 0 <=? e then Z.pos m * 2 ^ e else Z.pos m / 2 ^ (- e) in
      Some (if s then - magnitude else magnitude)
  | S754_infinity _ | S754_nan => None
  end.

(** The floor of a finite float, for comparison with [trunc]. *)
Definition floor (f : float) : option Z :=
  match f with
  | S754_zero _ => Some 0
  | S754_finite s m e =>
      let n := if s then Z.neg m else Z.pos m in
      Some (if 0 <=? e then n * 2 ^ e else n / 2 ^ (- e))
  | S754_infinity _ | S754_nan => None
  end.

Definition negative (f : float) : bool :=
  match f with
  | S754_finite true _ _ => true
  | _ => false
  end.
End F32.

Declare Scope f32_scope.
Delimit Scope f32_scope with f32.
Infix "+" := F32.add : f32_scope.
Infix "-" := F32.sub : f32_scope.
Infix "*" := F32.mul : f32_scope.
Infix "/" := F32.div : f32_scope.

(** ** Constants of [Main.c]

    The literals are the binary32 values nearest to the decimal text
    ([decimal_literals] below checks them against correctly rounded
    quotients). *)

Definition DIFFUSION_RATE_A : float := F32.make 1 0.                   (* 1.0F *)
Definition DIFFUSION_RATE_B : float := F32.make 1 (-1).                (* 0.5F *)
Definition TIME_STEP : float := F32.make 1 0.                          (* 1.0F *)
Definition ADJACENT_NEIGHBOUR_WEIGHT : float := F32.make 13421773 (-26). (* 0.2F *)
Definition DIAGONAL_NEIGHBOUR_WEIGHT : float := F32.make 13421773 (-28). (* 0.05F *)

Definition KILL_RATE_MAX : float := F32.make 16642998 (-28).           (* 0.062F *)
Definition KILL_RATE_MIN : float := F32.make 16642998 (-28).
Definition FEED_RATE_MAX : float := F32.make 14629732 (-28).           (* 0.0545F *)
Definition FEED_RATE_MIN : float := F32.make 14629732 (-28).

(** The sizes of a run: the integer macros of [Main.c]. *)
Class Config : Type := {
  ITERATIONS : Z;
  IterationCapture : Z;
  WIDTH : Z;
  HEIGHT : Z;
  CENTRE_CIRCLE_RADIUS : Z
}.

Definition source_config : Config := {|
  ITERATIONS := 10000;
  IterationCapture := 200;
  WIDTH := 600;
  HEIGHT := 600;
  CENTRE_CIRCLE_RADIUS := 20
|}.

(** ** Data *)

Record Cell : Type := mkCell { a : float; b : float }.

(** [byte] of LibBMP.h is an unsigned 8-bit integer; a value stored into
    one is reduced modulo 256. *)
Abbreviation byte := Z (only parsing).
Definition to_byte (n : Z) : byte := n mod 256.

(** Modelled from the spec: [Colour] is declared in LibBMP.h, which is
    not part of the sources; it is an (R,G,B) triple of bytes, with the
    fields in the order in which the positional initialisers of [Main.c]
    list them. *)
Record Colour : Type := mkColour { red : byte; green : byte; blue : byte }.

Definition colourA : Colour := {| red := 0; green := 0; blue := 0 |}.
Definition colourB : Colour := {| red := 50; green := 230; blue := 255 |}.

(** ** Store, events and undefined behaviour *)

(** A block is the array a successful [malloc] returned; a pointer is
    null or names a block; a pointer to a cell adds the index. *)
Abbreviation block := (list Cell).
Abbreviation loc := nat (only parsing).
Abbreviation ptr := (option loc).
Definition NULL : ptr := None.
Abbreviation cellptr := (ptr * Z)%type.

(** Modelled from the spec: LibBMP.h and its functions are not part of
    the sources, so the three functions [Main.c] calls are events that
    record their arguments in order.  The parameter names of [DrawPixel]
    follow the spec's coordinate mapping (a cell (x,y) becomes the pixel
    at row x and column y, drawn by [DrawPixel(y, x, ...)]): the first
    parameter is the column, the second the row. *)
Inductive event : Type :=
  | LoadBMPFile (filename : string)
  | DrawPixel (column row : Z) (r g bl : byte)
  | SaveBMPFile (filename : string) (width height : Z).

Record state : Type := mkState { mem : list block; out : list event }.

Inductive fault : Type :=
  | NullPointer
  | OutOfBounds
  | DivisionByZero
  | ConversionOutOfRange.

Inductive result (A : Type) : Type :=
  | Ok (x : A)
  | Undefined (f : fault).
Arguments Ok {A} x.
Arguments Undefined {A} f.

#[global] Instance result_ret : MRet result := fun A x => Ok x.
#[global] Instance result_bind : MBind result := fun A B k r =>
  match r with
  | Ok x => k x
  | Undefined f => Undefined f
  end.

(** Computations of the program: a state and error monad. *)
Definition M (A : Type) : Type := state -> result (A * state).

#[global] Instance M_ret : MRet M := fun A x s => Ok (x, s).
#[global] Instance M_bind : MBind M := fun A B k m s =>
  match m s with
  | Ok (x, s') => k x s'
  | Undefined f => Undefined f
  end.

Definition lift {A} (r : result A) : M A := fun s =>
  match r with
  | Ok x => Ok (x, s)
  | Undefined f => Undefined f
  end.

Definition emit (e : event) : M unit := fun s =>
  Ok (tt, {| mem := mem s; out := out s ++ [e] |}).

(** [p[i]] as an lvalue: the block behind [p] and the index in it. *)
Definition resolve (s : state) (p : cellptr) : result (loc * block * nat) :=
  match p.1 with
  | None => Undefined NullPointer
  | Some l =>
      match mem s !! l with
      | None => Undefined NullPointer
      | Some blk =>
          if bool_decide (0 <= p.2 < Z.of_nat (length blk))
          then Ok (l, blk, Z.to_nat p.2)
          else Undefined OutOfBounds
      end
  end.

Definition load (p : cellptr) : M Cell := fun s =>
  '(_, blk, i) ← resolve s p;
  match blk !! i with
  | Some c => Ok (c, s)
  | None => Undefined OutOfBounds
  end.

Definition store_with (upd : Cell -> Cell) (p : cellptr) : M unit := fun s =>
  '(l, blk, i) ← resolve s p;
  match blk !! i with
  | Some c =>
      Ok (tt, {| mem := <[l := <[i := upd c]> blk]> (mem s); out := out s |})
  | None => Undefined OutOfBounds
  end.

(** [p->a = v] and [p->b = v]. *)
Definition store_a (p : cellptr) (v : float) : M unit :=
  store_with (fun c => {| a := v; b := b c |}) p.
Definition store_b (p : cellptr) (v : float) : M unit :=
  store_with (fun c => {| a := a c; b := v |}) p.

(** A [for] loop over the values [l] of its counter, threading the local
    variables [acc] the body assigns. *)
Fixpoint for_fold {I S : Type} (l : list I) (body : I -> S -> M S) (acc : S) : M S :=
  match l with
  | [] => mret acc
  | i :: l' => acc' ← body i acc; for_fold l' body acc'
  end.

Definition for_each {I : Type} (l : list I) (body : I -> M unit) : M unit :=
  for_fold l (fun i _ => body i) tt.

(** [for (int i = lo; i < hi; i++)] *)
Definition for_range (lo hi : Z) (body : Z -> M unit) : M unit :=
  for_each (seqZ lo (hi - lo)) body.

(** ** Operations that C leaves partly undefined *)

(** [x / y] on floats: C11 6.5.5p5 leaves a zero divisor undefined (an
    implementation with Annex F returns an infinity or a NaN instead). *)
Definition fdiv (x y : float) : result float :=
  if F32.eqb y (F32.of_int 0) then Undefined DivisionByZero
  else Ok (x / y)%f32.

(** [x % y] on ints. *)
Definition irem (x y : Z) : result Z :=
  if y =? 0 then Undefined DivisionByZero else Ok (Z.rem x y).

(** [(byte) f]: defined when the integral part of [f] is a byte.  For
    other values C11 6.3.1.4 fixes no result and a compiled program
    still yields some byte, so [ConversionOutOfRange] marks where the
    standard stops describing the program: the properties below use it
    as a side condition ([renderable]) and say nothing about the byte
    obtained beyond it. *)
Definition byte_of_float (f : float) : result byte :=
  match F32.trunc f with
  | Some n =>
      if bool_decide (0 <= n < 256) then Ok n
      else Undefined ConversionOutOfRange
  | None => Undefined ConversionOutOfRange
  end.

(** [sprintf(str, "%d", n)] *)
Definition sprintf_d (n : Z) : string := NilZero.string_of_int (Z.to_int n).

(** The outcome of a [malloc]: failure, or a block whose cells hold
    indeterminate values [junk]. *)
Inductive allocation : Type :=
  | alloc_fails
  | alloc_gives (junk : nat -> Cell).

(** ** The program *)

Section Program.
Context {cfg : Config}.

Definition getKillRate (x y : Z) : float := KILL_RATE_MAX.

Definition getFeedRate (x y : Z) : float := FEED_RATE_MAX.

Definition isWithinGrid (x y : Z) : bool :=
  (0 <=? x) && (x <? WIDTH) && (0 <=? y) && (y <? HEIGHT).

Definition xyToIndex (x y : Z) : Z := x + y * WIDTH.

Definition calculateDifferenceBetweenCellAndNeighbours
    (currentGrid : ptr) (cell : cellptr) (xPos yPos : Z) : M Cell :=
  for_fold (seqZ (-1) 3) (fun x difference =>
    for_fold (seqZ (-1) 3) (fun y difference =>
      if (x =? 0) && (y =? 0) then
        c ← load cell;
        mret {| a := (a difference - a c)%f32; b := (b difference - b c)%f32 |}
      else
        let gridX := xPos + x in
        let gridY := yPos + y in
        if isWithinGrid gridX gridY then
          let gridCell : cellptr := (currentGrid, xyToIndex gridX gridY) in
          let weight :=
            if (x =? 0) || (y =? 0) then ADJACENT_NEIGHBOUR_WEIGHT
            else DIAGONAL_NEIGHBOUR_WEIGHT in
          n ← load gridCell;
          mret {| a := (a difference + weight * a n)%f32;
                  b := (b difference + weight * b n)%f32 |}
        else mret difference)
      difference)
    {| a := F32.of_int 0; b := F32.of_int 0 |}.

Definition calculateNewValue
    (currentGrid : ptr) (newValue : cellptr) (x y : Z) : M unit :=
  let cell : cellptr := (currentGrid, xyToIndex x y) in
  difference ← calculateDifferenceBetweenCellAndNeighbours currentGrid cell x y;
  c ← load cell;
  let reaction := (a c * b c * b c)%f32 in
  let feedRate := getFeedRate x y in
  let killRate := getKillRate x y in
  c ← load cell;
  store_a newValue
    (a c + (DIFFUSION_RATE_A * a difference - reaction
            + feedRate * (F32.of_int 1 - a c)) * TIME_STEP)%f32;;
  c ← load cell;
  store_b newValue
    (b c + (DIFFUSION_RATE_B * b difference + reaction
            - (killRate + feedRate) * b c) * TIME_STEP)%f32.

Definition updateGrid (currentGrid newGrid : ptr) : M unit :=
  for_range 0 WIDTH (fun x =>
    for_range 0 HEIGHT (fun y =>
      calculateNewValue currentGrid (newGrid, xyToIndex x y) x y)).

(** An [int] is modelled by [Z]: the product is the one of C as long as
    it fits 32 bits, that is for |x| <= 46340. *)
Definition square (x : Z) : Z := x * x.

Definition withinDistanceOfCentre (x y distance : Z) : bool :=
  square (x - WIDTH ÷ 2) + square (y - HEIGHT ÷ 2) <? square distance.

Definition seedGrid (currentGrid : ptr) : M unit :=
  for_range 0 WIDTH (fun x =>
    for_range 0 HEIGHT (fun y =>
      let index := xyToIndex x y in
      if withinDistanceOfCentre x y CENTRE_CIRCLE_RADIUS then
        store_a (currentGrid, index) (F32.make 0 0);;
        store_b (currentGrid, index) (F32.make 1 0)
      else
        store_a (currentGrid, index) (F32.make 1 0);;
        store_b (currentGrid, index) (F32.make 0 0))).

Definition lerp (ca cb : Colour) (t : float) : result Colour :=
  dr ← byte_of_float (F32.of_int (red cb - red ca) * t)%f32;
  dg ← byte_of_float (F32.of_int (green cb - green ca) * t)%f32;
  db ← byte_of_float (F32.of_int (blue cb - blue ca) * t)%f32;
  mret {| red := to_byte (red ca + dr);
          green := to_byte (green ca + dg);
          blue := to_byte (blue ca + db) |}.

Definition saveSimulation (currentGrid : ptr) (iteration : Z) : M unit :=
  for_range 0 WIDTH (fun x =>
    for_range 0 HEIGHT (fun y =>
      cell ← load (currentGrid, xyToIndex x y);
      let denominator := (b cell + a cell)%f32 in
      if negb (F32.eqb denominator (F32.of_int 0)) then
        t ← lift (fdiv (b cell) denominator);
        pixelColour ← lift (lerp colourA colourB t);
        emit (DrawPixel y x (red pixelColour) (green pixelColour) (blue pixelColour))
      else mret tt));;
  let filename := ("Output" ++ sprintf_d iteration ++ ".bmp")%string in
  emit (SaveBMPFile filename WIDTH HEIGHT).

Definition createGrid (outcome : allocation) : M ptr := fun s =>
  match outcome with
  | alloc_fails => Ok (NULL, s)
  | alloc_gives junk =>
      Ok (Some (length (mem s)),
          {| mem := mem s ++ [junk <$> seq 0 (Z.to_nat (WIDTH * HEIGHT))];
             out := out s |})
  end.

(** The two parameters are what the two [malloc]s return. *)
Definition startSimulation (first second : allocation) : M unit :=
  currentGrid ← createGrid first;
  newGrid ← createGrid second;
  emit (LoadBMPFile "blank.bmp");;
  seedGrid currentGrid;;
  for_range 0 ITERATIONS (fun iteration =>
    if Z.rem iteration 2 =? 0 then
      updateGrid currentGrid newGrid;;
      captured ← lift (irem iteration IterationCapture);
      if captured =? 0 then saveSimulation currentGrid iteration else mret tt
    else
      updateGrid newGrid currentGrid;;
      captured ← lift (irem iteration IterationCapture);
      if captured =? 0 then saveSimulation newGrid iteration else mret tt);;
  saveSimulation (if Z.rem ITERATIONS 2 =? 0 then currentGrid else newGrid) ITERATIONS.

Definition initial_state : state := {| mem := []; out := [] |}.

(** [main]: the run from an empty store (the closing [printf] is console
    reporting and is left out). *)
Definition main (first second : allocation) : result (unit * state) :=
  startSimulation first second initial_state.
End Program.

(** ** Specification-level descriptions

    Pure functions that say, in the words of the specification, what the
    loops of the program compute.  The theorems below relate the program
    to them. *)

#[global] Instance Cell_inhabited : Inhabited Cell :=
  populate {| a := F32.of_int 0; b := F32.of_int 0 |}.

(** One contribution to the neighbour diffusion term. *)
Inductive term : Type :=
  | Self
  | Neighbour (weight : float) (x y : Z).

Definition position (t : term) : option (Z * Z) :=
  match t with
  | Self => None
  | Neighbour _ x y => Some (x, y)
  end.

Definition orthogonalOffsets : list (Z * Z) := [(-1, 0); (1, 0); (0, -1); (0, 1)].
Definition diagonalOffsets : list (Z * Z) := [(-1, -1); (-1, 1); (1, -1); (1, 1)].

(** The offsets in the order the two loops of
    [calculateDifferenceBetweenCellAndNeighbours] visit them. *)
Definition scanOffsets : list (Z * Z) :=
  x ← seqZ (-1) 3; y ← seqZ (-1) 3; [(x, y)].

Section Specification.
Context {cfg : Config}.

Definition inGrid (x y : Z) : Prop := 0 <= x < WIDTH /\ 0 <= y < HEIGHT.

(** A buffer of [WIDTH * HEIGHT] cells. *)
Definition wellSized (g : block) : Prop :=
  Z.of_nat (length g) = WIDTH * HEIGHT.

Definition cellAt (g : block) (x y : Z) : Cell :=
  g !!! Z.to_nat (xyToIndex x y).

(** The buffer whose cell (x,y) is [f x y]. *)
Definition gridOf (f : Z -> Z -> Cell) : block :=
  (fun i => f (i `mod` WIDTH) (i `div` WIDTH)) <$> seqZ 0 (WIDTH * HEIGHT).

(** The positions in the order the loops over the grid visit them. *)
Definition scan : list (Z * Z) :=
  x ← seqZ 0 WIDTH; y ← seqZ 0 HEIGHT; [(x, y)].

(** *** Neighbour diffusion term *)

(** What the neighbour at offset [d] of (xPos,yPos) contributes:
    nothing when it lies outside the grid. *)
Definition neighbourTerm (weight : float) (xPos yPos : Z) (d : Z * Z) : list term :=
  if isWithinGrid (xPos + d.1) (yPos + d.2)
  then [Neighbour weight (xPos + d.1) (yPos + d.2)]
  else [].

(** The contributions as the specification lists them: the cell itself,
    the orthogonal neighbours, the diagonal neighbours. *)
Definition neighbourhood (xPos yPos : Z) : list term :=
  Self
  :: (orthogonalOffsets ≫= neighbourTerm ADJACENT_NEIGHBOUR_WEIGHT xPos yPos)
  ++ (diagonalOffsets ≫= neighbourTerm DIAGONAL_NEIGHBOUR_WEIGHT xPos yPos).

(** The contributions in the order the code accumulates them (float
    addition is not associative, so the order is part of the result). *)
Definition contribution (xPos yPos : Z) (d : Z * Z) : list term :=
  if (d.1 =? 0) && (d.2 =? 0) then [Self]
  else neighbourTerm
         (if (d.1 =? 0) || (d.2 =? 0) then ADJACENT_NEIGHBOUR_WEIGHT
          else DIAGONAL_NEIGHBOUR_WEIGHT) xPos yPos d.

Definition contributions (xPos yPos : Z) : list term :=
  scanOffsets ≫= contribution xPos yPos.

(** The neighbours of (xPos,yPos) that contribute. *)
Definition contributingNeighbours (xPos yPos : Z) : list (Z * Z) :=
  omap position (contributions xPos yPos).

Definition accumulate (g : block) (own : Cell) (difference : Cell) (t : term) : Cell :=
  match t with
  | Self =>
      {| a := (a difference - a own)%f32; b := (b difference - b own)%f32 |}
  | Neighbour weight x y =>
      let n := cellAt g x y in
      {| a := (a difference + weight * a n)%f32;
         b := (b difference + weight * b n)%f32 |}
  end.

Definition neighbourDifference (g : block) (x y : Z) : Cell :=
  foldl (accumulate g (cellAt g x y))
    {| a := F32.of_int 0; b := F32.of_int 0 |} (contributions x y).

(** *** Per-cell update and whole-grid step *)

Definition step (g : block) (x y : Z) : Cell :=
  let A := a (cellAt g x y) in
  let B := b (cellAt g x y) in
  let diff := neighbourDifference g x y in
  let reaction := (A * B * B)%f32 in
  let f := getFeedRate x y in
  let k := getKillRate x y in
  let dt := TIME_STEP in
  {| a := (A + (DIFFUSION_RATE_A * a diff - reaction + f * (F32.of_int 1 - A)) * dt)%f32;
     b := (B + (DIFFUSION_RATE_B * b diff + reaction - (k + f) * B) * dt)%f32 |}.

Definition advance (g : block) : block := gridOf (step g).

(** *** Seeding *)

Definition seedCell (x y : Z) : Cell :=
  if withinDistanceOfCentre x y CENTRE_CIRCLE_RADIUS
  then {| a := F32.make 0 0; b := F32.make 1 0 |}
  else {| a := F32.make 1 0; b := F32.make 0 0 |}.

Definition seed : block := gridOf seedCell.

(** The state of the grid after [n] steps. *)
Definition settled (n : Z) : block := Nat.iter (Z.to_nat n) advance seed.

(** *** Rendering *)

(** The parameter [t] of the interpolation for a cell. *)
Definition mix (c : Cell) : float := (b c / (b c + a c))%f32.

(** The colour of a cell, [None] for a cell that is skipped. *)
Definition shade (c : Cell) : result (option Colour) :=
  if F32.eqb (b c + a c)%f32 (F32.of_int 0) then Ok None
  else colour ← lerp colourA colourB (mix c); mret (Some colour).

(** What rendering the cell (x,y) of [g] hands to LibBMP. *)
Definition pixel (g : block) (p : Z * Z) : list event :=
  match shade (cellAt g p.1 p.2) with
  | Ok (Some c) => [DrawPixel p.2 p.1 (red c) (green c) (blue c)]
  | _ => []
  end.

(** The events drawn when the loops are about to visit (i,j). *)
Definition drawnBefore (g : block) (i j : Z) : list event :=
  (x ← seqZ 0 i; y ← seqZ 0 HEIGHT; pixel g (x, y))
  ++ (y ← seqZ 0 j; pixel g (i, y)).

(** Every conversion to [byte] that rendering [g] performs is defined. *)
Definition renderable (g : block) : bool :=
  forallb (fun p => match shade (cellAt g p.1 p.2) with
                    | Ok _ => true
                    | Undefined _ => false
                    end) scan.

Definition fileName (iteration : Z) : string :=
  ("Output" ++ sprintf_d iteration ++ ".bmp")%string.

(** The events of one [saveSimulation]. *)
Definition snapshot (g : block) (iteration : Z) : list event :=
  (scan ≫= pixel g) ++ [SaveBMPFile (fileName iteration) WIDTH HEIGHT].

(** The iterations of the loop that save a picture. *)
Definition captured (iteration : Z) : bool :=
  Z.rem iteration IterationCapture =? 0.

(** Rendering is defined on every state of the run that is saved. *)
Definition renderableRun : bool :=
  forallb (fun i => implb (captured i || (i =? ITERATIONS)) (renderable (settled i)))
    (seqZ 0 (ITERATIONS + 1)).

(** What one iteration of the loop of [startSimulation] saves. *)
Definition capture (i : Z) : list event :=
  if captured i then snapshot (settled i) i else [].

(** The state of the loop of [startSimulation] when it is about to
    test [i]: the buffer of the parity of [i] holds the settled state
    of iteration [i], the other one the state before it. *)
Definition pingPong (i : Z) (s : state) : Prop :=
  out s = LoadBMPFile "blank.bmp" :: (seqZ 0 i ≫= capture) /\
  exists g1 g2, mem s = [g1; g2] /\ wellSized g1 /\ wellSized g2 /\
    (if Z.rem i 2 =? 0 then g1 else g2) = settled i /\
    (0 < i -> (if Z.rem i 2 =? 0 then g2 else g1) = settled (i - 1)).

(** The events of a whole run. *)
Definition runTrace : list event :=
  LoadBMPFile "blank.bmp"
  :: (seqZ 0 ITERATIONS ≫= fun i =>
        if captured i then snapshot (settled i) i else [])
  ++ snapshot (settled ITERATIONS) ITERATIONS.

(** The files a run has written, in order. *)
Definition savedFiles (evs : list event) : list string :=
  omap (fun e => match e with SaveBMPFile name _ _ => Some name | _ => None end) evs.

(** *** Classes of cells *)

Definition corner (x y : Z) : Prop :=
  (x = 0 \/ x = WIDTH - 1) /\ (y = 0 \/ y = HEIGHT - 1).

Definition interior (x y : Z) : Prop :=
  0 < x < WIDTH - 1 /\ 0 < y < HEIGHT - 1.

(** On one border of the grid, not in a corner. *)
Definition edge (x y : Z) : Prop :=
  ((x = 0 \/ x = WIDTH - 1) /\ 0 < y < HEIGHT - 1) \/
  (0 < x < WIDTH - 1 /\ (y = 0 \/ y = HEIGHT - 1)).

(** The Euclidean distance from (x,y) to the centre of the grid. *)
Definition distanceToCentre (x y : Z) : R :=
  sqrt (IZR (square (x - WIDTH ÷ 2) + square (y - HEIGHT ÷ 2))).
End Specification.

(** The pixel a [DrawPixel] event addresses. *)
Definition pixelRow (e : event) : option Z :=
  match e with DrawPixel _ row _ _ _ => Some row | _ => None end.
Definition pixelColumn (e : event) : option Z :=
  match e with DrawPixel column _ _ _ _ => Some column | _ => None end.

(** ** Small runs, used to evaluate the program *)

(** A grid of one cell. *)
Definition unit_config : Config := {|
  ITERATIONS := 1;
  IterationCapture := 1;
  WIDTH := 1;
  HEIGHT := 1;
  CENTRE_CIRCLE_RADIUS := 1
|}.

(** A 4x4 grid seeded with a circle of radius 1, stepped 5 times and
    captured every second iteration. *)
Definition small_config : Config := {|
  ITERATIONS := 5;
  IterationCapture := 2;
  WIDTH := 4;
  HEIGHT := 4;
  CENTRE_CIRCLE_RADIUS := 1
|}.

(** Uninitialised memory that happens to hold NaNs. *)
Definition junk : nat -> Cell := fun _ => {| a := S754_nan; b := S754_nan |}.

(** A store with one block. *)
Definition single (g : block) : state := {| mem := [g]; out := [] |}.

(** A store with two blocks. *)
Definition pair_of (g g' : block) : state := {| mem := [g; g']; out := [] |}.

(** The seeded 4x4 grid, next to an uninitialised buffer. *)
Definition small_seed : block := @seed small_config.
Definition small_state : state := pair_of small_seed (junk <$> seq 0 16).

(** A cell with a slightly negative B: A = 1, B = -2^-10. *)
Definition faintlyNegative : Cell := {| a := F32.make 1 0; b := F32.make (-1) (-10) |}.

(** A cell whose B exceeds A + B: A = -1, B = 3, so t = 1.5. *)
Definition overshoot : Cell := {| a := F32.make (-1) 0; b := F32.make 3 0 |}.

(** ** Further descriptions

    Used by the properties that follow the claims. *)

(** A float that is a number: not an infinity and not a NaN. *)
Definition isFinite (f : float) : bool :=
  match f with
  | S754_zero _ | S754_finite _ _ _ => true
  | S754_infinity _ | S754_nan => false
  end.

(** The cell [seedGrid] writes outside the circle: A = 1, B = 0. *)
Definition undisturbed : Cell := {| a := F32.make 1 0; b := F32.make 0 0 |}.

(** The cell [seedGrid] writes inside the circle: A = 0, B = 1. *)
Definition seeded : Cell := {| a := F32.make 0 0; b := F32.make 1 0 |}.

(** A channel value that fits a [byte]. *)
Definition isByte (n : Z) : Prop := 0 <= n < 256.

Definition byteColour (c : Colour) : Prop :=
  isByte (red c) /\ isByte (green c) /\ isByte (blue c).

Section FurtherSpecification.
Context {cfg : Config}.

(** The positions visited when the loops over the grid are about to
    visit (i,j). *)
Definition visitedBefore (i j : Z) : list (Z * Z) :=
  (x ← seqZ 0 i; y ← seqZ 0 HEIGHT; [(x, y)]) ++ (y ← seqZ 0 j; [(i, y)]).

(** One cell of a step done in place: the cell is replaced in the buffer
    it was computed from. *)
Definition sweepCell (g : block) (p : Z * Z) : block :=
  <[Z.to_nat (xyToIndex p.1 p.2) := step g p.1 p.2]> g.

(** A step done in place, cell after cell in scan order. *)
Definition sweep (g : block) : block := foldl sweepCell g scan.

(** The 3x3 neighbourhood of (x,y), the cell included. *)
Definition near (x y u v : Z) : Prop :=
  x - 1 <= u <= x + 1 /\ y - 1 <= v <= y + 1.
End FurtherSpecification.

(** A run on a grid without cells. *)
Definition empty_config : Config := {|
  ITERATIONS := 1;
  IterationCapture := 1;
  WIDTH := 0;
  HEIGHT := 3;
  CENTRE_CIRCLE_RADIUS := 1
|}.

(** A 4x4 buffer of undisturbed cells, next to an uninitialised one. *)
Definition calm_grid : block := replicate 16 undisturbed.
Definition calm_state : state := pair_of calm_grid (junk <$> seq 0 16).

(** A run without iterations, on the 4x4 grid. *)
Definition still_config : Config := {|
  ITERATIONS := 0;
  IterationCapture := 0;
  WIDTH := 4;
  HEIGHT := 4;
  CENTRE_CIRCLE_RADIUS := 1
|}.

(** ** A weakest precondition for the monad

    [wp m s Q E]: run from [s], [m] returns a value and a state that
    satisfy [Q], or stops on a fault that satisfies [E]. *)
Definition wp {A} (m : M A) (s : state) (Q : A -> state -> Prop) (E : fault -> Prop) : Prop :=
  match m s with
  | Ok (x, s') => Q x s'
  | Undefined f => E f
  end.

(** No fault is allowed. *)
Definition never : fault -> Prop := fun _ => False.

(** * Properties *)

(** The float literals are the correctly rounded decimal fractions. *)
Lemma decimal_literals :
  ADJACENT_NEIGHBOUR_WEIGHT = (F32.of_int 2 / F32.of_int 10)%f32 /\
  DIAGONAL_NEIGHBOUR_WEIGHT = (F32.of_int 5 / F32.of_int 100)%f32 /\
  DIFFUSION_RATE_B = (F32.of_int 5 / F32.of_int 10)%f32 /\
  KILL_RATE_MAX = (F32.of_int 62 / F32.of_int 1000)%f32 /\
  FEED_RATE_MAX = (F32.of_int 545 / F32.of_int 10000)%f32.
Proof. vm_compute. repeat split. Qed.

(** ** Evaluating the program *)

(** One step from the seeded 4x4 grid: the centre cell (2,2) goes from
    (0,1) to (1.0545, 0.3835) and the corner (0,0) from (1,0) to
    (0.45, 0), in binary32. *)
Lemma step_of_small_seed :
  exists s',
    @updateGrid small_config (Some 0%nat) (Some 1%nat) small_state = Ok (tt, s') /\
    (mem s' !! 1%nat) ≫= (fun g => g !! Z.to_nat (@xyToIndex small_config 2 2))
    = Some {| a := F32.make 8845787 (-23); b := F32.make 12868124 (-25) |} /\
    (mem s' !! 1%nat) ≫= (fun g => g !! Z.to_nat (@xyToIndex small_config 0 0))
    = Some {| a := F32.make 15099494 (-25); b := F32.of_int 0 |}.
Proof. eexists. split; [by vm_compute|]. by vm_compute. Qed.

(** The store models aliasing: stepping a buffer into itself lets later
    cells read updated neighbours, and already cell (1,0) differs from
    the cell of a proper step. *)
Lemma update_in_place_differs :
  exists g,
    @updateGrid small_config (Some 0%nat) (Some 0%nat) (single small_seed)
    = Ok (tt, {| mem := [g]; out := [] |}) /\
    g !! 1%nat ≠ @advance small_config small_seed !! 1%nat.
Proof. eexists. split; [by vm_compute|]. by vm_compute. Qed.

(** With the sizes of [Main.c] the integers the program computes for an
    in-grid cell and its neighbours stay far inside the range of [int]. *)
Lemma source_ints_fit x y dx dy :
  @inGrid source_config x y -> -1 <= dx <= 1 -> -1 <= dy <= 1 ->
  -1 <= x + dx <= 600 /\ -1 <= y + dy <= 600 /\
  0 <= @xyToIndex source_config x y < 360000 /\
  0 <= @square (x - @WIDTH source_config ÷ 2)
       + @square (y - @HEIGHT source_config ÷ 2) < 2 ^ 31 /\
  @square (@CENTRE_CIRCLE_RADIUS source_config) = 400 /\
  @WIDTH source_config * @HEIGHT source_config * 8 < 2 ^ 31.
Proof.
  unfold inGrid, xyToIndex, square. cbn. intros [Hx Hy] Hdx Hdy.
  change (600 ÷ 2) with 300.
  assert (Hsq : forall u, -300 <= u <= 300 -> 0 <= u * u <= 90000).
  { intros u Hu. pose proof (Z.square_nonneg u).
    assert (Hp : 0 <= (300 - u) * (300 + u)) by (apply Z.mul_nonneg_nonneg; lia).
    replace ((300 - u) * (300 + u)) with (90000 - u * u) in Hp by ring. lia. }
  pose proof (Hsq (x - 300) ltac:(lia)). pose proof (Hsq (y - 300) ltac:(lia)).
  repeat split; lia.
Qed.

(** ** Rules of the weakest precondition *)

Lemma wp_ret {A} (x : A) s (Q : A -> state -> Prop) E :
  Q x s -> wp (mret x) s Q E.
Proof. done. Qed.

Lemma wp_bind {A B} (m : M A) (k : A -> M B) s Q E :
  wp m s (fun x s' => wp (k x) s' Q E) E -> wp (m ≫= k) s Q E.
Proof.
  unfold wp, mbind, M_bind. destruct (m s) as [[x s']|f]; done.
Qed.

Lemma wp_mono {A} (m : M A) s (Q Q' : A -> state -> Prop) (E E' : fault -> Prop) :
  wp m s Q E ->
  (forall x s', Q x s' -> Q' x s') -> (forall f, E f -> E' f) ->
  wp m s Q' E'.
Proof.
  unfold wp. destruct (m s) as [[x s']|f]; auto.
Qed.

Lemma wp_eq {A} (m : M A) s x s' (Q : A -> state -> Prop) E :
  m s = Ok (x, s') -> Q x s' -> wp m s Q E.
Proof. unfold wp. by intros ->. Qed.

Lemma wp_lift {A} (r : result A) x s (Q : A -> state -> Prop) E :
  r = Ok x -> Q x s -> wp (lift r) s Q E.
Proof. intros -> HQ. done. Qed.

Lemma wp_emit e s (Q : unit -> state -> Prop) E :
  Q tt {| mem := mem s; out := out s ++ [e] |} -> wp (emit e) s Q E.
Proof. done. Qed.

Lemma wp_total {A} (m : M A) s (Q : A -> state -> Prop) :
  wp m s Q never -> exists x s', m s = Ok (x, s') /\ Q x s'.
Proof.
  unfold wp. destruct (m s) as [[x s']|f]; [eauto | done].
Qed.

(** The invariant rule of a loop: [Inv done acc s] holds when the
    iterations [done] have run. *)
Lemma wp_for_fold_from {I S} (Inv : list I -> S -> state -> Prop) E
    (body : I -> S -> M S) (l done : list I) acc s :
  Inv done acc s ->
  (forall pre i post acc s,
      done ++ l = pre ++ i :: post -> Inv pre acc s ->
      wp (body i acc) s (fun acc' s' => Inv (pre ++ [i]) acc' s') E) ->
  wp (for_fold l body acc) s (fun acc' s' => Inv (done ++ l) acc' s') E.
Proof.
  revert done acc s. induction l as [|i l IH]; intros done acc s HI Hbody.
  - rewrite app_nil_r. by apply wp_ret.
  - cbn [for_fold]. apply wp_bind.
    eapply wp_mono; [by apply (Hbody done i l acc s) | | done].
    intros acc' s' HI'. cbn beta in HI'.
    replace (done ++ i :: l) with ((done ++ [i]) ++ l) by by rewrite <-app_assoc.
    apply IH; [done|].
    intros pre j post acc'' s'' Heq. apply (Hbody pre j post).
    by rewrite <-Heq, <-app_assoc.
Qed.

Lemma wp_for_fold {I S} (Inv : list I -> S -> state -> Prop) E
    (body : I -> S -> M S) (l : list I) acc s :
  Inv [] acc s ->
  (forall pre i post acc s,
      l = pre ++ i :: post -> Inv pre acc s ->
      wp (body i acc) s (fun acc' s' => Inv (pre ++ [i]) acc' s') E) ->
  wp (for_fold l body acc) s (fun acc' s' => Inv l acc' s') E.
Proof. intros. by apply (wp_for_fold_from Inv E body l []). Qed.

Lemma seqZ_split lo n pre (i : Z) post :
  seqZ lo n = pre ++ i :: post ->
  i = lo + Z.of_nat (length pre) /\ lo <= i < lo + n /\
  pre = seqZ lo (i - lo).
Proof.
  intros Heq.
  assert (Hi : seqZ lo n !! length pre = Some i).
  { rewrite Heq. by rewrite list_lookup_middle. }
  apply lookup_seqZ in Hi as [-> Hlt].
  split; [done|]. split; [lia|].
  replace (lo + Z.of_nat (length pre) - lo) with (Z.of_nat (length pre)) by lia.
  apply list_eq. intros k.
  destruct (decide (k < length pre)%nat) as [Hk|Hk].
  - rewrite lookup_seqZ_lt by lia.
    assert (Hl : seqZ lo n !! k = pre !! k).
    { rewrite Heq. by rewrite lookup_app_l. }
    rewrite <-Hl. rewrite lookup_seqZ_lt by lia. done.
  - rewrite lookup_seqZ_ge by lia. apply lookup_ge_None_2. lia.
Qed.

(** The invariant rule of [for (i = lo; i < hi; i++)]: [Inv i s] holds
    when the loop is about to test [i]. *)
Lemma wp_for_range (Inv : Z -> state -> Prop) E lo hi body s :
  lo <= hi ->
  Inv lo s ->
  (forall i s, lo <= i < hi -> Inv i s ->
     wp (body i) s (fun _ s' => Inv (i + 1) s') E) ->
  wp (for_range lo hi body) s (fun _ s' => Inv hi s') E.
Proof.
  intros Hle H0 Hbody. unfold for_range, for_each.
  eapply wp_mono;
    [apply (wp_for_fold
              (fun done (_ : unit) s => Inv (lo + Z.of_nat (length done)) s)) | |done].
  - by rewrite Z.add_0_r.
  - intros pre i post [] s' Heq HI.
    apply seqZ_split in Heq as (Hi & Hr & _).
    rewrite length_app. cbn [length].
    replace (lo + Z.of_nat (length pre + 1)) with (i + 1) by lia.
    rewrite <-Hi in HI. apply Hbody; [lia | done].
  - intros [] s' HI. cbn beta in HI. rewrite length_seqZ in HI.
    by replace (lo + Z.of_nat (Z.to_nat (hi - lo))) with hi in HI by lia.
Qed.

(** ** Memory accesses *)

Lemma resolve_run s l blk i :
  mem s !! l = Some blk -> 0 <= i < Z.of_nat (length blk) ->
  resolve s (Some l, i) = Ok (l, blk, Z.to_nat i).
Proof.
  intros Hl Hi. unfold resolve. cbn [fst snd]. rewrite Hl.
  by rewrite bool_decide_eq_true_2.
Qed.

Lemma load_run s l blk i c :
  mem s !! l = Some blk -> 0 <= i -> blk !! Z.to_nat i = Some c ->
  load (Some l, i) s = Ok (c, s).
Proof.
  intros Hl Hi Hc. unfold load.
  rewrite (resolve_run s l blk i) by (apply lookup_lt_Some in Hc; lia || done).
  cbn. by rewrite Hc.
Qed.

Lemma store_with_run upd s l blk i c :
  mem s !! l = Some blk -> 0 <= i -> blk !! Z.to_nat i = Some c ->
  store_with upd (Some l, i) s =
  Ok (tt, {| mem := <[l := <[Z.to_nat i := upd c]> blk]> (mem s); out := out s |}).
Proof.
  intros Hl Hi Hc. unfold store_with.
  rewrite (resolve_run s l blk i) by (apply lookup_lt_Some in Hc; lia || done).
  cbn. by rewrite Hc.
Qed.

(** A whole cell written field by field. *)
Lemma store_a_b_run s l blk i c va vb :
  mem s !! l = Some blk -> 0 <= i -> blk !! Z.to_nat i = Some c ->
  (store_a (Some l, i) va;; store_b (Some l, i) vb) s =
  Ok (tt, {| mem := <[l := <[Z.to_nat i := {| a := va; b := vb |}]> blk]> (mem s);
             out := out s |}).
Proof.
  intros Hl Hi Hc. unfold mbind, M_bind, store_a, store_b.
  rewrite (store_with_run _ s l blk i c) by done.
  pose proof (lookup_lt_Some _ _ _ Hl) as Hlt.
  pose proof (lookup_lt_Some _ _ _ Hc) as Hlt'.
  rewrite (store_with_run _ _ l (<[Z.to_nat i := {| a := va; b := b c |}]> blk) i
             {| a := va; b := b c |}).
  - cbn. by rewrite !list_insert_insert_eq.
  - cbn. by apply list_lookup_insert_eq.
  - done.
  - by apply list_lookup_insert_eq.
Qed.

(** ** Indexing the grid *)

Section Grid.
Context {cfg : Config}.

Lemma isWithinGrid_inGrid x y : isWithinGrid x y = true <-> inGrid x y.
Proof.
  unfold isWithinGrid, inGrid. rewrite !andb_true_iff, !Z.leb_le, !Z.ltb_lt. lia.
Qed.

Lemma isWithinGrid_outside x y : isWithinGrid x y = false <-> ~ inGrid x y.
Proof. rewrite <-isWithinGrid_inGrid. by destruct (isWithinGrid x y). Qed.

Lemma xyToIndex_range x y :
  inGrid x y -> 0 <= xyToIndex x y < WIDTH * HEIGHT.
Proof. unfold inGrid, xyToIndex. nia. Qed.

Lemma xyToIndex_inj x y x' y' :
  inGrid x y -> inGrid x' y' -> xyToIndex x y = xyToIndex x' y' ->
  x = x' /\ y = y'.
Proof.
  unfold inGrid, xyToIndex. intros Hin Hin' Heq.
  assert (y = y') by nia. subst. lia.
Qed.

Lemma xyToIndex_split x y :
  inGrid x y ->
  xyToIndex x y `mod` WIDTH = x /\ xyToIndex x y `div` WIDTH = y.
Proof.
  unfold inGrid, xyToIndex. intros [Hx Hy].
  rewrite Z.mod_add, Z.div_add by lia.
  rewrite Z.mod_small, Z.div_small by lia. lia.
Qed.

Lemma index_inGrid k :
  0 <= k < WIDTH * HEIGHT -> 0 < WIDTH ->
  inGrid (k `mod` WIDTH) (k `div` WIDTH) /\
  xyToIndex (k `mod` WIDTH) (k `div` WIDTH) = k.
Proof.
  intros Hk HW. unfold inGrid, xyToIndex.
  pose proof (Z.mod_pos_bound k WIDTH HW).
  assert (Hne : WIDTH ≠ 0) by lia.
  pose proof (Z.div_mod k WIDTH Hne).
  assert (0 <= k `div` WIDTH) by (apply Z.div_pos; lia).
  assert (k `div` WIDTH < HEIGHT) by (apply Z.div_lt_upper_bound; lia).
  lia.
Qed.

Lemma lookup_cellAt g x y :
  wellSized g -> inGrid x y ->
  g !! Z.to_nat (xyToIndex x y) = Some (cellAt g x y).
Proof.
  intros Hg Hin. apply list_lookup_lookup_total_lt.
  pose proof (xyToIndex_range x y Hin). unfold wellSized in Hg. lia.
Qed.

Lemma lookup_gridOf f x y :
  inGrid x y -> gridOf f !! Z.to_nat (xyToIndex x y) = Some (f x y).
Proof.
  intros Hin. unfold gridOf.
  pose proof (xyToIndex_range x y Hin).
  rewrite list_lookup_fmap, lookup_seqZ_lt by lia.
  cbn [fmap option_fmap option_map]. rewrite Z.add_0_l, Z2Nat.id by lia.
  by destruct (xyToIndex_split x y Hin) as [-> ->].
Qed.

Lemma wellSized_gridOf f : 0 <= WIDTH * HEIGHT -> wellSized (gridOf f).
Proof.
  intros. unfold wellSized, gridOf. rewrite length_fmap, length_seqZ. lia.
Qed.

Lemma cellAt_gridOf f x y : inGrid x y -> cellAt (gridOf f) x y = f x y.
Proof.
  intros Hin. unfold cellAt.
  by apply list_lookup_total_correct, lookup_gridOf.
Qed.

(** A buffer is determined by its cells. *)
Lemma grid_eq g f :
  0 <= WIDTH -> wellSized g ->
  (forall x y, inGrid x y -> g !! Z.to_nat (xyToIndex x y) = Some (f x y)) ->
  g = gridOf f.
Proof.
  intros HW Hg Hcells. apply list_eq. intros k.
  destruct (decide (Z.of_nat k < WIDTH * HEIGHT)) as [Hk|Hk].
  - assert (0 < WIDTH).
    { destruct (decide (WIDTH = 0)) as [Hz|]; [rewrite Hz in Hk|]; lia. }
    destruct (index_inGrid (Z.of_nat k)) as [Hin Hidx]; [lia | done |].
    rewrite <-(Nat2Z.id k), <-Hidx.
    by rewrite Hcells, lookup_gridOf.
  - rewrite !lookup_ge_None_2; [done | |].
    + unfold gridOf. rewrite length_fmap, length_seqZ. lia.
    + unfold wellSized in Hg. lia.
Qed.

Lemma load_cell s l g x y :
  mem s !! l = Some g -> wellSized g -> inGrid x y ->
  load (Some l, xyToIndex x y) s = Ok (cellAt g x y, s).
Proof.
  intros Hl Hg Hin. eapply load_run; [done | | by apply lookup_cellAt].
  by apply xyToIndex_range.
Qed.
End Grid.

(** ** Running binds and loops *)

Lemma bind_run {A B} (m : M A) (k : A -> M B) s x s' :
  m s = Ok (x, s') -> (m ≫= k) s = k x s'.
Proof. unfold mbind, M_bind. by intros ->. Qed.

(** A loop that only accumulates computes a left fold. *)
Lemma for_fold_foldl {I S T} (f : S -> T -> S) (h : I -> list T)
    (body : I -> S -> M S) (l : list I) acc s :
  (forall i acc, body i acc s = Ok (foldl f acc (h i), s)) ->
  for_fold l body acc s = Ok (foldl f acc (l ≫= h), s).
Proof.
  intros Hbody. revert acc. induction l as [|i l IH]; intros acc; [done|].
  cbn [for_fold]. rewrite (bind_run _ _ _ _ _ (Hbody i acc)).
  by rewrite bind_cons, foldl_app.
Qed.

Lemma pairs_bind {A B C} (l1 : list A) (l2 : list B) (k : A * B -> list C) :
  (x ← l1; y ← l2; [(x, y)]) ≫= k = x ← l1; y ← l2; k (x, y).
Proof.
  induction l1 as [|x l1 IH]; [done|].
  rewrite !bind_cons, bind_app, IH. f_equal. clear IH.
  induction l2 as [|y l2 IH2]; [done|].
  rewrite !bind_cons, bind_app, IH2. f_equal. apply bind_singleton.
Qed.

Section Engine.
Context {cfg : Config}.

(** The double loop of [calculateDifferenceBetweenCellAndNeighbours]
    reads the current buffer and folds the contributions in scan
    order. *)
Lemma difference_run s l g x y :
  mem s !! l = Some g -> wellSized g -> inGrid x y ->
  calculateDifferenceBetweenCellAndNeighbours (Some l) (Some l, xyToIndex x y) x y s
  = Ok (neighbourDifference g x y, s).
Proof.
  intros Hl Hg Hin.
  unfold calculateDifferenceBetweenCellAndNeighbours, neighbourDifference,
    contributions, scanOffsets.
  rewrite pairs_bind.
  apply (for_fold_foldl (accumulate g (cellAt g x y))
           (fun dx => dy ← seqZ (-1) 3; contribution x y (dx, dy))).
  intros dx acc.
  apply (for_fold_foldl (accumulate g (cellAt g x y))
           (fun dy => contribution x y (dx, dy))).
  intros dy acc'. unfold contribution, neighbourTerm. cbn [fst snd].
  destruct ((dx =? 0) && (dy =? 0)).
  - by rewrite (bind_run _ _ _ _ _ (load_cell s l g x y Hl Hg Hin)).
  - destruct (isWithinGrid (x + dx) (y + dy)) eqn:Hw; [|done].
    apply isWithinGrid_inGrid in Hw.
    by rewrite (bind_run _ _ _ _ _ (load_cell s l g _ _ Hl Hg Hw)).
Qed.

(** [calculateNewValue] reads the current buffer [g] and writes
    [step g x y] through [newValue], a cell of another block. *)
Lemma calculateNewValue_run s l g x y l' g' i' c' :
  mem s !! l = Some g -> wellSized g -> inGrid x y ->
  l ≠ l' -> mem s !! l' = Some g' -> 0 <= i' -> g' !! Z.to_nat i' = Some c' ->
  calculateNewValue (Some l) (Some l', i') x y s
  = Ok (tt, {| mem := <[l' := <[Z.to_nat i' := step g x y]> g']> (mem s);
               out := out s |}).
Proof.
  intros Hl Hg Hin Hne Hl' Hi' Hc'. unfold calculateNewValue.
  rewrite (bind_run _ _ _ _ _ (difference_run s l g x y Hl Hg Hin)).
  rewrite (bind_run _ _ _ _ _ (load_cell s l g x y Hl Hg Hin)).
  rewrite (bind_run _ _ _ _ _ (load_cell s l g x y Hl Hg Hin)).
  unfold store_a, store_b.
  rewrite (bind_run _ _ _ _ _ (store_with_run _ s l' g' i' c' Hl' Hi' Hc')).
  pose proof (lookup_lt_Some _ _ _ Hl') as Hlt.
  pose proof (lookup_lt_Some _ _ _ Hc') as Hlt'.
  erewrite bind_run.
  2:{ apply (load_cell _ l g x y); [|done..]. cbn.
      by rewrite list_lookup_insert_ne. }
  erewrite store_with_run;
    [| cbn; by apply list_lookup_insert_eq | done | by apply list_lookup_insert_eq].
  cbn. by rewrite !list_insert_insert_eq.
Qed.

(** A double loop over the grid whose body writes [f x y] into cell
    (x,y) of block [l] fills the block with [gridOf f]. *)
Lemma fill_grid (body : Z -> Z -> M unit) (f : Z -> Z -> Cell) l s g' :
  0 <= WIDTH -> 0 <= HEIGHT ->
  mem s !! l = Some g' -> wellSized g' ->
  (forall x y blk s',
      inGrid x y -> wellSized blk ->
      mem s' = <[l := blk]> (mem s) -> out s' = out s ->
      body x y s' =
      Ok (tt, {| mem := <[l := <[Z.to_nat (xyToIndex x y) := f x y]> blk]> (mem s);
                 out := out s |})) ->
  for_range 0 WIDTH (fun x => for_range 0 HEIGHT (fun y => body x y)) s
  = Ok (tt, {| mem := <[l := gridOf f]> (mem s); out := out s |}).
Proof.
  intros HW HH Hl Hg Hbody.
  set (Inv := fun (i j : Z) (s' : state) =>
    out s' = out s /\
    exists blk, mem s' = <[l := blk]> (mem s) /\ wellSized blk /\
      forall x y, inGrid x y -> x < i \/ (x = i /\ y < j) ->
        blk !! Z.to_nat (xyToIndex x y) = Some (f x y)).
  assert (Hwp : wp (for_range 0 WIDTH (fun x => for_range 0 HEIGHT (fun y => body x y)))
                  s (fun _ s' => Inv WIDTH 0 s') never).
  { apply (wp_for_range (fun i s' => Inv i 0 s')); [done | |].
    - split; [done|]. exists g'. split; [by rewrite list_insert_id|].
      split; [done|]. intros x y [] ?. lia.
    - intros i s1 Hi HInv.
      eapply wp_mono;
        [apply (wp_for_range (fun j s' => Inv i j s')); [done | done |] | | done].
      + intros j s2 Hj (Hout & blk & Hmem & Hblk & Hdone).
        assert (Hij : inGrid i j) by done.
        eapply wp_eq; [by apply (Hbody i j blk s2)|].
        split; [done|].
        exists (<[Z.to_nat (xyToIndex i j) := f i j]> blk).
        split; [done|]. split; [unfold wellSized; by rewrite length_insert|].
        intros x y Hin Hp.
        destruct (decide (x = i /\ y = j)) as [[-> ->]|Hother].
        * apply list_lookup_insert_eq.
          pose proof (xyToIndex_range i j Hin). unfold wellSized in Hblk. lia.
        * rewrite list_lookup_insert_ne; [apply Hdone; [done | lia]|].
          intros Heq. apply Hother, xyToIndex_inj; [done..|].
          pose proof (xyToIndex_range i j Hij).
          pose proof (xyToIndex_range x y Hin). lia.
      + intros _ s2 (Hout & blk & Hmem & Hblk & Hdone).
        split; [done|]. exists blk. split; [done|]. split; [done|].
        intros x y Hin Hp. apply Hdone; [done|]. destruct Hin. lia. }
  apply wp_total in Hwp as ([] & s' & -> & Hout & blk & Hmem & Hblk & Hdone).
  do 2 f_equal. destruct s' as [m o]. cbn in *. subst. f_equal. f_equal.
  apply grid_eq; [done..|]. intros x y Hin. apply Hdone; [done|].
  destruct Hin. lia.
Qed.
End Engine.

Section Steps.
Context {cfg : Config}.

(** [updateGrid] on two different blocks: the destination becomes
    [advance g], whatever it held. *)
Lemma updateGrid_run s cur new g g' :
  0 <= WIDTH -> 0 <= HEIGHT -> cur ≠ new ->
  mem s !! cur = Some g -> wellSized g ->
  mem s !! new = Some g' -> wellSized g' ->
  updateGrid (Some cur) (Some new) s
  = Ok (tt, {| mem := <[new := advance g]> (mem s); out := out s |}).
Proof.
  intros HW HH Hne Hcur Hg Hnew Hg'. unfold updateGrid, advance.
  apply (fill_grid _ (step g) new s g'); [done..|].
  intros x y blk s' Hin Hblk Hmem Hout.
  pose proof (lookup_lt_Some _ _ _ Hnew) as Hlt.
  rewrite (calculateNewValue_run s' cur g x y new blk (xyToIndex x y) (cellAt blk x y)).
  - by rewrite Hmem, Hout, list_insert_insert_eq.
  - rewrite Hmem. by rewrite list_lookup_insert_ne.
  - done.
  - done.
  - done.
  - rewrite Hmem. by apply list_lookup_insert_eq.
  - by apply xyToIndex_range.
  - by apply lookup_cellAt.
Qed.

Lemma seedGrid_run s l g' :
  0 <= WIDTH -> 0 <= HEIGHT ->
  mem s !! l = Some g' -> wellSized g' ->
  seedGrid (Some l) s = Ok (tt, {| mem := <[l := seed]> (mem s); out := out s |}).
Proof.
  intros HW HH Hl Hg'. unfold seedGrid, seed.
  apply (fill_grid _ seedCell l s g'); [done..|].
  intros x y blk s' Hin Hblk Hmem Hout.
  pose proof (lookup_lt_Some _ _ _ Hl) as Hlt.
  assert (Hl' : mem s' !! l = Some blk).
  { rewrite Hmem. by apply list_lookup_insert_eq. }
  pose proof (xyToIndex_range x y Hin) as Hidx.
  pose proof (lookup_cellAt blk x y Hblk Hin) as Hc.
  unfold seedCell. destruct (withinDistanceOfCentre x y CENTRE_CIRCLE_RADIUS).
  - rewrite (store_a_b_run s' l blk _ _ _ _ Hl' (proj1 Hidx) Hc).
    by rewrite Hmem, Hout, list_insert_insert_eq.
  - rewrite (store_a_b_run s' l blk _ _ _ _ Hl' (proj1 Hidx) Hc).
    by rewrite Hmem, Hout, list_insert_insert_eq.
Qed.

Lemma wellSized_advance g : 0 <= WIDTH -> 0 <= HEIGHT -> wellSized (advance g).
Proof. intros. apply wellSized_gridOf. lia. Qed.

Lemma wellSized_seed : 0 <= WIDTH -> 0 <= HEIGHT -> wellSized seed.
Proof. intros. apply wellSized_gridOf. lia. Qed.

Lemma wellSized_settled n : 0 <= WIDTH -> 0 <= HEIGHT -> wellSized (settled n).
Proof.
  intros. unfold settled. destruct (Z.to_nat n); cbn;
    [by apply wellSized_seed | by apply wellSized_advance].
Qed.

Lemma settled_succ n : 0 <= n -> settled (n + 1) = advance (settled n).
Proof.
  intros. unfold settled. by rewrite Z2Nat.inj_add, Nat.add_comm by lia.
Qed.

(** *** Rendering *)

Lemma byte_of_float_fault f e :
  byte_of_float f = Undefined e -> e = ConversionOutOfRange.
Proof.
  unfold byte_of_float. destruct (F32.trunc f); [case_bool_decide|]; congruence.
Qed.

Lemma lerp_fault ca cb t e :
  lerp ca cb t = Undefined e -> e = ConversionOutOfRange.
Proof.
  unfold lerp, mbind, result_bind.
  repeat match goal with
    | |- context [byte_of_float ?x] =>
        let H := fresh in
        destruct (byte_of_float x) eqn:H;
        [| apply byte_of_float_fault in H; congruence]
    end.
  done.
Qed.

Lemma scan_inGrid x y : (x, y) ∈ scan <-> inGrid x y.
Proof.
  unfold scan, inGrid. rewrite list_elem_of_bind. split.
  - intros (x' & Hy & Hx). apply list_elem_of_bind in Hy as (y' & Hp & Hy).
    apply list_elem_of_singleton in Hp. simplify_eq.
    apply elem_of_seqZ in Hx, Hy. lia.
  - intros [Hx Hy]. exists x. split; [|apply elem_of_seqZ; lia].
    apply list_elem_of_bind. exists y. split; [by left|apply elem_of_seqZ; lia].
Qed.

Lemma renderable_shade g x y :
  renderable g = true -> inGrid x y ->
  exists c, shade (cellAt g x y) = Ok c.
Proof.
  unfold renderable. rewrite forallb_forall. intros Hall Hin.
  specialize (Hall (x, y)). cbn [fst snd] in Hall.
  destruct (shade (cellAt g x y)); [eauto|].
  discriminate Hall. by apply list_elem_of_In, scan_inGrid.
Qed.

Lemma not_renderable g x y e :
  inGrid x y -> shade (cellAt g x y) = Undefined e -> renderable g = false.
Proof.
  intros Hin Hs. destruct (renderable g) eqn:Hr; [|done].
  destruct (renderable_shade g x y Hr Hin) as [c Hc]. congruence.
Qed.

Lemma seqZ_snoc_bind {B} (k : Z -> list B) n :
  0 <= n -> seqZ 0 (n + 1) ≫= k = (seqZ 0 n ≫= k) ++ k n.
Proof.
  intros. rewrite seqZ_app, bind_app by lia.
  rewrite (seqZ_cons (0 + n) 1), (seqZ_nil _ (Z.pred 1)) by lia.
  by rewrite bind_singleton.
Qed.

Lemma drawnBefore_start g : drawnBefore g 0 0 = [].
Proof. done. Qed.

Lemma drawnBefore_cell g i j :
  0 <= j -> drawnBefore g i (j + 1) = drawnBefore g i j ++ pixel g (i, j).
Proof.
  intros. unfold drawnBefore. rewrite seqZ_snoc_bind by lia.
  by rewrite <-!app_assoc.
Qed.

Lemma drawnBefore_row g i :
  0 <= i -> drawnBefore g (i + 1) 0 = drawnBefore g i HEIGHT.
Proof.
  intros. unfold drawnBefore. rewrite seqZ_snoc_bind by lia.
  cbn. by rewrite app_nil_r.
Qed.

Lemma drawnBefore_end g : drawnBefore g WIDTH 0 = scan ≫= pixel g.
Proof.
  unfold drawnBefore, scan. rewrite pairs_bind. cbn. by rewrite app_nil_r.
Qed.

(** [saveSimulation] draws the picture of the buffer and saves it, or
    stops at a conversion to [byte] that is out of range; it never
    changes the store. *)
Lemma saveSimulation_wp s l g iteration :
  0 <= WIDTH -> 0 <= HEIGHT ->
  mem s !! l = Some g -> wellSized g ->
  wp (saveSimulation (Some l) iteration) s
    (fun _ s' => s' = {| mem := mem s; out := out s ++ snapshot g iteration |})
    (fun e => e = ConversionOutOfRange /\ renderable g = false).
Proof.
  intros HW HH Hl Hg. unfold saveSimulation. apply wp_bind.
  set (Inv := fun (i j : Z) (s' : state) =>
    mem s' = mem s /\ out s' = out s ++ drawnBefore g i j).
  set (E := fun e => e = ConversionOutOfRange /\ renderable g = false).
  eapply wp_mono;
    [apply (wp_for_range (fun i s' => Inv i 0 s') E); [done | |] | |done].
  - split; [done|]. by rewrite drawnBefore_start, app_nil_r.
  - intros i s1 Hi HInv.
    eapply wp_mono;
      [apply (wp_for_range (fun j s' => Inv i j s') E); [done | done |] | | done].
    + intros j s2 Hj [Hmem Hout].
      assert (Hij : inGrid i j) by done.
      assert (Hl2 : mem s2 !! l = Some g) by by rewrite Hmem.
      apply wp_bind. eapply wp_eq; [by apply (load_cell s2 l g i j)|].
      assert (Hnext : forall evs, pixel g (i, j) = evs ->
                Inv i (j + 1) {| mem := mem s2; out := out s2 ++ evs |}).
      { intros evs <-. split; [done|]. cbn [out]. rewrite Hout.
        rewrite drawnBefore_cell by lia. by rewrite <-!app_assoc. }
      unfold pixel, shade in Hnext. cbn [fst snd] in Hnext.
      pose proof (not_renderable g i j) as Hbad. unfold shade in Hbad.
      destruct (F32.eqb (b (cellAt g i j) + a (cellAt g i j))%f32 (F32.of_int 0))
        eqn:Hzero; cbn [negb].
      * apply wp_ret. specialize (Hnext [] eq_refl).
        rewrite app_nil_r in Hnext. by destruct s2.
      * apply wp_bind. eapply wp_lift; [unfold fdiv; by rewrite Hzero|].
        apply wp_bind. fold (mix (cellAt g i j)).
        fold (mix (cellAt g i j)) in Hnext, Hbad.
        destruct (lerp colourA colourB (mix (cellAt g i j))) as [colour|e] eqn:Hlerp.
        -- eapply wp_lift; [done|]. apply wp_emit. by apply Hnext.
        -- unfold wp, lift. split; [by eapply lerp_fault | by eapply Hbad].
    + intros _ s2 [Hmem Hout]. split; [done|].
      by rewrite drawnBefore_row by lia.
  - intros _ s1 [Hmem Hout]. apply wp_emit. rewrite Hmem, Hout.
    unfold snapshot. by rewrite drawnBefore_end, <-app_assoc.
Qed.

(** On a renderable buffer [saveSimulation] completes. *)
Lemma saveSimulation_run s l g iteration :
  0 <= WIDTH -> 0 <= HEIGHT ->
  mem s !! l = Some g -> wellSized g -> renderable g = true ->
  saveSimulation (Some l) iteration s
  = Ok (tt, {| mem := mem s; out := out s ++ snapshot g iteration |}).
Proof.
  intros HW HH Hl Hg Hr.
  pose proof (saveSimulation_wp s l g iteration HW HH Hl Hg) as Hwp.
  unfold wp in Hwp. destruct (saveSimulation (Some l) iteration s) as [[[] s']|e].
  - by rewrite Hwp.
  - destruct Hwp. congruence.
Qed.
End Steps.

(** ** The driver *)

Lemma rem2_succ i :
  0 <= i -> (Z.rem (i + 1) 2 =? 0) = negb (Z.rem i 2 =? 0).
Proof.
  intros. rewrite !Z.rem_mod_nonneg by lia.
  assert (H2 : 2 ≠ 0) by lia.
  pose proof (Z.div_mod i 2 H2). pose proof (Z.div_mod (i + 1) 2 H2).
  pose proof (Z.mod_pos_bound i 2). pose proof (Z.mod_pos_bound (i + 1) 2).
  destruct (Z.eqb_spec (i `mod` 2) 0), (Z.eqb_spec ((i + 1) `mod` 2) 0); cbn; lia.
Qed.

Section Driver.
Context {cfg : Config}.

Lemma renderableRun_settled i :
  renderableRun = true -> 0 <= i <= ITERATIONS ->
  captured i = true \/ i = ITERATIONS ->
  renderable (settled i) = true.
Proof.
  unfold renderableRun. rewrite forallb_forall. intros Hall Hi Hsaved.
  specialize (Hall i). rewrite <-list_elem_of_In, elem_of_seqZ in Hall.
  specialize (Hall ltac:(lia)).
  destruct Hsaved as [Hc|Hc].
  - rewrite Hc in Hall. exact Hall.
  - subst i. rewrite Z.eqb_refl, orb_true_r in Hall. exact Hall.
Qed.

Lemma iteration_even i s :
  0 <= WIDTH -> 0 <= HEIGHT -> IterationCapture ≠ 0 -> renderableRun = true ->
  0 <= i < ITERATIONS -> (Z.rem i 2 =? 0) = true -> pingPong i s ->
  wp (updateGrid (Some 0%nat) (Some 1%nat);;
      captured ← lift (irem i IterationCapture);
      if captured =? 0 then saveSimulation (Some 0%nat) i else mret tt)
     s (fun _ s' => pingPong (i + 1) s') never.
Proof.
  intros HW HH Hcap Hrun Hi Heven (Hout & g1 & g2 & Hmem & Hg1 & Hg2 & Hcur & _).
  rewrite Heven in Hcur. subst g1.
  apply wp_bind. eapply wp_eq.
  { apply (updateGrid_run s 0%nat 1%nat (settled i) g2); try done; by rewrite Hmem. }
  apply wp_bind. eapply wp_lift.
  { unfold irem. by rewrite (proj2 (Z.eqb_neq _ _) Hcap). }
  rewrite Hmem. cbn [insert list_insert].
  assert (Hnext : forall evs, capture i = evs ->
    pingPong (i + 1) {| mem := [settled i; advance (settled i)]; out := out s ++ evs |}).
  { intros evs <-. split.
    - cbn [out]. rewrite Hout, seqZ_snoc_bind by lia. done.
    - exists (settled i), (advance (settled i)).
      rewrite rem2_succ, Heven by lia. cbn [negb].
      split; [done|]. split; [done|].
      split; [by apply wellSized_advance|].
      split; [by rewrite settled_succ by lia|].
      intros _. f_equal. lia. }
  unfold capture, captured in Hnext.
  destruct (Z.rem i IterationCapture =? 0) eqn:Hc.
  - eapply wp_eq.
    { apply (saveSimulation_run _ 0%nat (settled i)); try done.
      apply renderableRun_settled; [done | lia |]. left. by unfold captured. }
    cbn [mem out]. by apply Hnext.
  - apply wp_ret. specialize (Hnext [] eq_refl). by rewrite app_nil_r in Hnext.
Qed.

Lemma iteration_odd i s :
  0 <= WIDTH -> 0 <= HEIGHT -> IterationCapture ≠ 0 -> renderableRun = true ->
  0 <= i < ITERATIONS -> (Z.rem i 2 =? 0) = false -> pingPong i s ->
  wp (updateGrid (Some 1%nat) (Some 0%nat);;
      captured ← lift (irem i IterationCapture);
      if captured =? 0 then saveSimulation (Some 1%nat) i else mret tt)
     s (fun _ s' => pingPong (i + 1) s') never.
Proof.
  intros HW HH Hcap Hrun Hi Hodd (Hout & g1 & g2 & Hmem & Hg1 & Hg2 & Hcur & _).
  rewrite Hodd in Hcur. subst g2.
  apply wp_bind. eapply wp_eq.
  { apply (updateGrid_run s 1%nat 0%nat (settled i) g1); try done; by rewrite Hmem. }
  apply wp_bind. eapply wp_lift.
  { unfold irem. by rewrite (proj2 (Z.eqb_neq _ _) Hcap). }
  rewrite Hmem. cbn [insert list_insert].
  assert (Hnext : forall evs, capture i = evs ->
    pingPong (i + 1) {| mem := [advance (settled i); settled i]; out := out s ++ evs |}).
  { intros evs <-. split.
    - cbn [out]. rewrite Hout, seqZ_snoc_bind by lia. done.
    - exists (advance (settled i)), (settled i).
      rewrite rem2_succ, Hodd by lia. cbn [negb].
      split; [done|]. split; [by apply wellSized_advance|].
      split; [done|].
      split; [by rewrite settled_succ by lia|].
      intros _. f_equal. lia. }
  unfold capture, captured in Hnext.
  destruct (Z.rem i IterationCapture =? 0) eqn:Hc.
  - eapply wp_eq.
    { apply (saveSimulation_run _ 1%nat (settled i)); try done.
      apply renderableRun_settled; [done | lia |]. left. by unfold captured. }
    cbn [mem out]. by apply Hnext.
  - apply wp_ret. specialize (Hnext [] eq_refl). by rewrite app_nil_r in Hnext.
Qed.

(** The whole run, when both allocations succeed. *)
Lemma main_run junk1 junk2 :
  0 <= WIDTH -> 0 <= HEIGHT -> 0 <= ITERATIONS -> IterationCapture ≠ 0 ->
  renderableRun = true ->
  exists final,
    main (alloc_gives junk1) (alloc_gives junk2) = Ok (tt, final) /\
    out final = runTrace /\
    pingPong ITERATIONS {| mem := mem final;
                           out := LoadBMPFile "blank.bmp"
                                  :: (seqZ 0 ITERATIONS ≫= capture) |}.
Proof.
  intros HW HH HN Hcap Hrun. unfold main, startSimulation.
  erewrite bind_run by done. erewrite bind_run by done.
  erewrite bind_run by done. cbn [initial_state mem out app length].
  set (g1 := junk1 <$> seq 0 (Z.to_nat (WIDTH * HEIGHT))).
  set (g2 := junk2 <$> seq 0 (Z.to_nat (WIDTH * HEIGHT))).
  assert (Hg1 : wellSized g1).
  { unfold wellSized, g1. rewrite length_fmap, length_seq. nia. }
  assert (Hg2 : wellSized g2).
  { unfold wellSized, g2. rewrite length_fmap, length_seq. nia. }
  erewrite bind_run by (by apply (seedGrid_run _ 0%nat g1)).
  cbn [mem out insert list_insert].
  match goal with |- exists final, (?loop ≫= ?k) ?s = _ /\ _ =>
    assert (Hloop : wp loop s (fun _ s' => pingPong ITERATIONS s') never)
  end.
  { apply (wp_for_range pingPong); [done | |].
    - split; [done|]. exists seed, g2. cbn.
      repeat split; [by apply wellSized_seed | done | lia].
    - intros i s Hi Hpp. destruct (Z.rem i 2 =? 0) eqn:Hpar.
      + by apply iteration_even.
      + by apply iteration_odd. }
  apply wp_total in Hloop as ([] & s & Hloop & Hpp).
  erewrite bind_run by exact Hloop.
  destruct Hpp as (Hout & h1 & h2 & Hmem & Hh1 & Hh2 & Hcur & Hold).
  assert (Hr : renderable (settled ITERATIONS) = true).
  { apply renderableRun_settled; [done | lia | by right]. }
  exists {| mem := mem s; out := out s ++ snapshot (settled ITERATIONS) ITERATIONS |}.
  split; [|split].
  - destruct (Z.rem ITERATIONS 2 =? 0); subst.
    + apply saveSimulation_run; try done. by rewrite Hmem.
    + apply saveSimulation_run; try done. by rewrite Hmem.
  - cbn [out]. rewrite Hout. unfold runTrace.
    by rewrite <-app_comm_cons.
  - split; [done|]. exists h1, h2. done.
Qed.
End Driver.

(** ** Distances *)

Lemma sqrt_lt_square (n r : Z) :
  0 <= n -> 0 <= r -> (sqrt (IZR n) < IZR r)%R <-> n < r * r.
Proof.
  intros Hn Hr.
  assert (Hsq : IZR r = sqrt (IZR (r * r))).
  { rewrite mult_IZR. symmetry. apply sqrt_square. apply IZR_le. lia. }
  rewrite Hsq. split.
  - intros Hlt. apply lt_IZR. by apply sqrt_lt_0_alt.
  - intros Hlt. apply sqrt_lt_1_alt. split; [apply IZR_le; lia | apply IZR_lt; lia].
Qed.

Lemma load_out_of_bounds s l g i :
  mem s !! l = Some g -> ~ (0 <= i < Z.of_nat (length g)) ->
  load (Some l, i) s = Undefined OutOfBounds.
Proof.
  intros Hl Hi. unfold load, resolve. cbn [fst snd]. rewrite Hl.
  by rewrite bool_decide_eq_false_2.
Qed.

Lemma store_out_of_bounds upd s l g i :
  mem s !! l = Some g -> ~ (0 <= i < Z.of_nat (length g)) ->
  store_with upd (Some l, i) s = Undefined OutOfBounds.
Proof.
  intros Hl Hi. unfold store_with, resolve. cbn [fst snd]. rewrite Hl.
  by rewrite bool_decide_eq_false_2.
Qed.

(** * The claims *)

Section NeighbourTerms.
Context {cfg : Config}.

Lemma within_in u v : inGrid u v -> isWithinGrid u v = true.
Proof. apply isWithinGrid_inGrid. Qed.

Lemma within_out u v : ~ inGrid u v -> isWithinGrid u v = false.
Proof. apply isWithinGrid_outside. Qed.

Lemma contributions_unfold x y :
  contributions x y =
  neighbourTerm DIAGONAL_NEIGHBOUR_WEIGHT x y (-1, -1)
  ++ neighbourTerm ADJACENT_NEIGHBOUR_WEIGHT x y (-1, 0)
  ++ neighbourTerm DIAGONAL_NEIGHBOUR_WEIGHT x y (-1, 1)
  ++ neighbourTerm ADJACENT_NEIGHBOUR_WEIGHT x y (0, -1)
  ++ [Self]
  ++ neighbourTerm ADJACENT_NEIGHBOUR_WEIGHT x y (0, 1)
  ++ neighbourTerm DIAGONAL_NEIGHBOUR_WEIGHT x y (1, -1)
  ++ neighbourTerm ADJACENT_NEIGHBOUR_WEIGHT x y (1, 0)
  ++ neighbourTerm DIAGONAL_NEIGHBOUR_WEIGHT x y (1, 1) ++ [].
Proof. reflexivity. Qed.

Lemma scanOffsets_Permutation :
  scanOffsets ≡ₚ (0, 0) :: orthogonalOffsets ++ diagonalOffsets.
Proof. apply (bool_decide_unpack _). by vm_compute. Qed.

Lemma contributions_neighbourhood x y :
  contributions x y ≡ₚ neighbourhood x y.
Proof.
  unfold contributions. rewrite scanOffsets_Permutation.
  rewrite bind_cons, bind_app. reflexivity.
Qed.

Lemma neighbour_contributes w gx gy x y :
  Neighbour w gx gy ∈ contributions x y ->
  inGrid gx gy /\ (gx, gy) ≠ (x, y) /\
  x - 1 <= gx <= x + 1 /\ y - 1 <= gy <= y + 1 /\
  w = if bool_decide (gx = x \/ gy = y)
      then ADJACENT_NEIGHBOUR_WEIGHT else DIAGONAL_NEIGHBOUR_WEIGHT.
Proof.
  rewrite contributions_unfold. unfold neighbourTerm. cbn [fst snd].
  rewrite !elem_of_app.
  intros H.
  repeat match type of H with
    | _ \/ _ => destruct H as [H|H]
    end;
  try (by apply list_elem_of_singleton in H);
  try (by apply elem_of_nil in H);
  match type of H with
  | context [isWithinGrid ?u ?v] =>
      destruct (isWithinGrid u v) eqn:Hin;
      [apply isWithinGrid_inGrid in Hin | by apply elem_of_nil in H]
  end;
  apply list_elem_of_singleton in H; simplify_eq;
  (split; [done|]); (split; [intros ?; simplify_eq; lia|]);
  (split; [lia|]); (split; [lia|]);
  case_bool_decide; first [done | lia].
Qed.

Local Ltac count_neighbours :=
  unfold contributingNeighbours; rewrite contributions_unfold;
  unfold neighbourTerm; cbn [fst snd];
  repeat match goal with
    | |- context [isWithinGrid ?u ?v] =>
        first [ rewrite (within_in u v) by (unfold inGrid; lia)
              | rewrite (within_out u v) by (unfold inGrid; lia) ]
    end;
  reflexivity.

Lemma interior_neighbours x y :
  interior x y -> length (contributingNeighbours x y) = 8%nat.
Proof. intros [? ?]. count_neighbours. Qed.

Lemma edge_neighbours x y :
  2 <= WIDTH -> 2 <= HEIGHT -> edge x y ->
  length (contributingNeighbours x y) = 5%nat.
Proof. intros ? ? [[[?|?] ?]|[? [?|?]]]; count_neighbours. Qed.

Lemma corner_neighbours x y :
  2 <= WIDTH -> 2 <= HEIGHT -> corner x y ->
  length (contributingNeighbours x y) = 3%nat.
Proof. intros ? ? [[?|?] [?|?]]; count_neighbours. Qed.
End NeighbourTerms.

Section GridEngineClaims.
Context {cfg : Config}.

(** C1: for every in-grid cell (x,y), [calculateNewValue] reads the
    cell's own (A,B) from the current buffer and writes
    newA = A + (diffusionRateA * diff.A - reaction + f*(1-A)) * dt and
    newB = B + (diffusionRateB * diff.B + reaction - (k+f)*B) * dt
    through [newValue], where reaction = A*B*B, diff is the result of
    [calculateDifferenceBetweenCellAndNeighbours] on the current buffer
    and f, k are the feed and kill rates looked up at (x,y). *)
Theorem C1_cell_update s cur g x y new g' i' c' :
  mem s !! cur = Some g -> wellSized g -> inGrid x y ->
  cur ≠ new -> mem s !! new = Some g' -> 0 <= i' -> g' !! Z.to_nat i' = Some c' ->
  let A := a (cellAt g x y) in
  let B := b (cellAt g x y) in
  let reaction := (A * B * B)%f32 in
  let f := getFeedRate x y in
  let k := getKillRate x y in
  let dt := TIME_STEP in
  exists diff,
    g !! Z.to_nat (xyToIndex x y) = Some {| a := A; b := B |} /\
    calculateDifferenceBetweenCellAndNeighbours
      (Some cur) (Some cur, xyToIndex x y) x y s = Ok (diff, s) /\
    calculateNewValue (Some cur) (Some new, i') x y s =
    Ok (tt,
        {| mem :=
             <[new :=
                 <[Z.to_nat i' :=
                     {| a := (A + (DIFFUSION_RATE_A * a diff - reaction
                                   + f * (F32.of_int 1 - A)) * dt)%f32;
                        b := (B + (DIFFUSION_RATE_B * b diff + reaction
                                   - (k + f) * B) * dt)%f32 |}]> g']> (mem s);
           out := out s |}).
Proof.
  intros Hcur Hg Hin Hne Hnew Hi' Hc' A B reaction f k dt.
  exists (neighbourDifference g x y). split; [|split].
  - rewrite (lookup_cellAt g x y Hg Hin). subst A B. by destruct (cellAt g x y).
  - by apply difference_run.
  - by apply (calculateNewValue_run s cur g x y new g' i' c').
Qed.

(** C2: for every in-grid cell (x,y) the neighbour diffusion term is the
    sum, accumulated in scan order over the 3x3 neighbourhood, that
    subtracts the cell's own (A,B) once, adds every in-grid orthogonal
    neighbour scaled by the adjacent weight and every in-grid diagonal
    neighbour scaled by the diagonal weight, and has no term for a
    position outside the grid; a corner cell has 3 contributing
    neighbours, an edge cell 5, an interior cell 8. *)
Theorem C2_neighbour_difference s cur g x y :
  mem s !! cur = Some g -> wellSized g -> inGrid x y ->
  calculateDifferenceBetweenCellAndNeighbours
    (Some cur) (Some cur, xyToIndex x y) x y s
  = Ok (foldl (accumulate g (cellAt g x y))
          {| a := F32.of_int 0; b := F32.of_int 0 |} (contributions x y), s) /\
  contributions x y ≡ₚ neighbourhood x y /\
  (forall w gx gy,
      Neighbour w gx gy ∈ contributions x y ->
      inGrid gx gy /\ (gx, gy) ≠ (x, y) /\
      x - 1 <= gx <= x + 1 /\ y - 1 <= gy <= y + 1 /\
      w = if bool_decide (gx = x \/ gy = y)
          then ADJACENT_NEIGHBOUR_WEIGHT else DIAGONAL_NEIGHBOUR_WEIGHT) /\
  (2 <= WIDTH -> 2 <= HEIGHT -> corner x y ->
   length (contributingNeighbours x y) = 3%nat) /\
  (2 <= WIDTH -> 2 <= HEIGHT -> edge x y ->
   length (contributingNeighbours x y) = 5%nat) /\
  (interior x y -> length (contributingNeighbours x y) = 8%nat).
Proof.
  intros Hcur Hg Hin. split; [by apply difference_run|].
  split; [apply contributions_neighbourhood|].
  split; [intros w gx gy; apply neighbour_contributes|].
  split; [apply corner_neighbours|].
  split; [apply edge_neighbours | apply interior_neighbours].
Qed.

(** C3: seeding sets every cell (x,y) to (A=0, B=1) exactly when its
    Euclidean distance to the grid centre (WIDTH/2, HEIGHT/2) is
    strictly less than the seed-circle radius, and to (A=1, B=0)
    otherwise; a cell at distance exactly the radius gets (A=1, B=0). *)
Theorem C3_seeding s l g' :
  0 <= WIDTH -> 0 <= HEIGHT -> 0 <= CENTRE_CIRCLE_RADIUS ->
  mem s !! l = Some g' -> wellSized g' ->
  exists g,
    seedGrid (Some l) s = Ok (tt, {| mem := <[l := g]> (mem s); out := out s |}) /\
    wellSized g /\
    forall x y, inGrid x y ->
      ((distanceToCentre x y < IZR CENTRE_CIRCLE_RADIUS)%R ->
       cellAt g x y = {| a := F32.of_int 0; b := F32.of_int 1 |}) /\
      (~ (distanceToCentre x y < IZR CENTRE_CIRCLE_RADIUS)%R ->
       cellAt g x y = {| a := F32.of_int 1; b := F32.of_int 0 |}) /\
      (distanceToCentre x y = IZR CENTRE_CIRCLE_RADIUS ->
       cellAt g x y = {| a := F32.of_int 1; b := F32.of_int 0 |}).
Proof.
  intros HW HH HR Hl Hg'. exists seed.
  split; [by apply (seedGrid_run s l g')|]. split; [by apply wellSized_seed|].
  intros x y Hin. unfold seed. rewrite (cellAt_gridOf _ x y Hin).
  unfold seedCell, withinDistanceOfCentre, distanceToCentre.
  pose proof (sqrt_lt_square
                (square (x - WIDTH ÷ 2) + square (y - HEIGHT ÷ 2))
                CENTRE_CIRCLE_RADIUS) as Hdist.
  fold (square CENTRE_CIRCLE_RADIUS) in Hdist.
  assert (Hnonneg : 0 <= square (x - WIDTH ÷ 2) + square (y - HEIGHT ÷ 2)).
  { unfold square.
    pose proof (Z.square_nonneg (x - WIDTH ÷ 2)).
    pose proof (Z.square_nonneg (y - HEIGHT ÷ 2)). lia. }
  specialize (Hdist Hnonneg HR).
  destruct (Z.ltb_spec (square (x - WIDTH ÷ 2) + square (y - HEIGHT ÷ 2))
              (square CENTRE_CIRCLE_RADIUS)) as [Hlt|Hge].
  - apply Hdist in Hlt. split; [done|]. split; [done|].
    intros Heq. rewrite Heq in Hlt. by apply Rlt_irrefl in Hlt.
  - assert (Hnot : ~ (sqrt (IZR (square (x - WIDTH ÷ 2) + square (y - HEIGHT ÷ 2)))
                      < IZR CENTRE_CIRCLE_RADIUS)%R).
    { intros Hlt. apply Hdist in Hlt. lia. }
    done.
Qed.

(** C4: on two different buffers [updateGrid] leaves the current
    buffer as it was, overwrites every cell of the next buffer with the
    step computed from the current one, whatever the next buffer held,
    and changes nothing else. *)
Theorem C4_double_buffer s cur new g g' :
  0 <= WIDTH -> 0 <= HEIGHT -> cur ≠ new ->
  mem s !! cur = Some g -> wellSized g ->
  mem s !! new = Some g' -> wellSized g' ->
  exists s' next,
    updateGrid (Some cur) (Some new) s = Ok (tt, s') /\
    mem s' !! cur = Some g /\
    mem s' !! new = Some next /\ wellSized next /\
    (forall x y, inGrid x y -> cellAt next x y = step g x y) /\
    (forall other, wellSized other ->
       updateGrid (Some cur) (Some new)
         {| mem := <[new := other]> (mem s); out := out s |} = Ok (tt, s')) /\
    (forall l, l ≠ new -> mem s' !! l = mem s !! l) /\
    out s' = out s.
Proof.
  intros HW HH Hne Hcur Hg Hnew Hg'.
  pose proof (lookup_lt_Some _ _ _ Hnew) as Hlt.
  exists {| mem := <[new := advance g]> (mem s); out := out s |}, (advance g).
  split; [by apply (updateGrid_run s cur new g g')|]. cbn [mem out].
  split; [by rewrite list_lookup_insert_ne|].
  split; [by apply list_lookup_insert_eq|].
  split; [by apply wellSized_advance|].
  split; [intros x y Hin; unfold advance; by apply cellAt_gridOf|].
  split; [|split; [|done]].
  - intros other Hother.
    rewrite (updateGrid_run _ cur new g other); cbn [mem out]; try done.
    + by rewrite list_insert_insert_eq.
    + by rewrite list_lookup_insert_ne.
    + by apply list_lookup_insert_eq.
  - intros l Hl. by rewrite list_lookup_insert_ne.
Qed.

(** C10: for every in-grid (x,y) the index x + y*WIDTH lies in
    [0, WIDTH*HEIGHT); an access outside that range is a fault of the
    model, and seeding, the neighbour difference, the per-cell update,
    the whole-grid step and rendering never raise it: every neighbour
    that is read passed the in-grid check. *)
Theorem C10_in_bounds s l g x y l' g' :
  0 <= WIDTH -> 0 <= HEIGHT ->
  mem s !! l = Some g -> wellSized g -> inGrid x y ->
  l ≠ l' -> mem s !! l' = Some g' -> wellSized g' ->
  0 <= xyToIndex x y < WIDTH * HEIGHT /\
  (forall i, ~ 0 <= i < WIDTH * HEIGHT ->
     load (Some l, i) s = Undefined OutOfBounds /\
     forall v, store_a (Some l, i) v s = Undefined OutOfBounds /\
               store_b (Some l, i) v s = Undefined OutOfBounds) /\
  (forall w gx gy, Neighbour w gx gy ∈ contributions x y ->
     0 <= xyToIndex gx gy < WIDTH * HEIGHT) /\
  (exists r, seedGrid (Some l) s = Ok r) /\
  (exists r, calculateDifferenceBetweenCellAndNeighbours
               (Some l) (Some l, xyToIndex x y) x y s = Ok r) /\
  (exists r, calculateNewValue (Some l) (Some l', xyToIndex x y) x y s = Ok r) /\
  (exists r, updateGrid (Some l) (Some l') s = Ok r) /\
  (forall iteration e,
     saveSimulation (Some l) iteration s = Undefined e -> e = ConversionOutOfRange).
Proof.
  intros HW HH Hl Hg Hin Hne Hl' Hg'.
  split; [by apply xyToIndex_range|].
  split.
  { intros i Hi. unfold wellSized in Hg.
    split; [apply (load_out_of_bounds s l g); [done | lia]|].
    intros v. unfold store_a, store_b.
    split; apply (store_out_of_bounds _ s l g); done || lia. }
  split.
  { intros w gx gy Hn. apply xyToIndex_range.
    by apply neighbour_contributes in Hn as [? _]. }
  split; [eexists; by apply (seedGrid_run s l g)|].
  split; [eexists; by apply (difference_run s l g)|].
  split.
  { eexists.
    apply (calculateNewValue_run s l g x y l' g' (xyToIndex x y) (cellAt g' x y));
      try done; [by apply xyToIndex_range | by apply lookup_cellAt]. }
  split; [eexists; by apply (updateGrid_run s l l' g g')|].
  intros iteration e He.
  pose proof (saveSimulation_wp s l g iteration HW HH Hl Hg) as Hwp.
  unfold wp in Hwp. rewrite He in Hwp. by destruct Hwp.
Qed.
End GridEngineClaims.

(** The update of cell (1,1) of the seeded 4x4 grid. *)
Lemma C1_witness :
  exists r,
    @calculateNewValue small_config (Some 0%nat) (Some 1%nat, 5) 1 1 small_state = Ok r.
Proof.
  destruct (@C1_cell_update small_config small_state 0%nat small_seed 1 1
              1%nat (junk <$> seq 0 16) 5 (junk 5%nat))
    as (diff & _ & _ & Hrun).
  - reflexivity.
  - reflexivity.
  - unfold inGrid. simpl. lia.
  - lia.
  - reflexivity.
  - lia.
  - reflexivity.
  - eexists. exact Hrun.
Defined.

(** The corner (0,0) of the seeded 4x4 grid has three neighbours. *)
Lemma C2_witness :
  length (@contributingNeighbours small_config 0 0) = 3%nat.
Proof.
  destruct (@C2_neighbour_difference small_config small_state 0%nat small_seed 0 0)
    as (_ & _ & _ & Hcorner & _).
  - reflexivity.
  - reflexivity.
  - unfold inGrid. simpl. lia.
  - apply Hcorner.
    + simpl. lia.
    + simpl. lia.
    + unfold corner. simpl. lia.
Defined.

(** Seeding the first buffer of the 4x4 run. *)
Lemma C3_witness :
  exists r, @seedGrid small_config (Some 0%nat) small_state = Ok r.
Proof.
  destruct (@C3_seeding small_config small_state 0%nat small_seed)
    as (g & Hrun & _).
  - simpl. lia.
  - simpl. lia.
  - simpl. lia.
  - reflexivity.
  - reflexivity.
  - eexists. exact Hrun.
Defined.

(** One step from the seeded buffer into the uninitialised one. *)
Lemma C4_witness :
  exists s',
    @updateGrid small_config (Some 0%nat) (Some 1%nat) small_state = Ok (tt, s') /\
    mem s' !! 0%nat = Some small_seed.
Proof.
  destruct (@C4_double_buffer small_config small_state 0%nat 1%nat
              small_seed (junk <$> seq 0 16))
    as (s' & next & Hrun & Hcur & _).
  - simpl. lia.
  - simpl. lia.
  - lia.
  - reflexivity.
  - reflexivity.
  - reflexivity.
  - reflexivity.
  - exists s'. split; [exact Hrun | exact Hcur].
Defined.

(** The accesses of the cell (3,3) of the 4x4 grid. *)
Lemma C10_witness :
  0 <= @xyToIndex small_config 3 3 < 16.
Proof.
  destruct (@C10_in_bounds small_config small_state 0%nat small_seed 3 3
              1%nat (junk <$> seq 0 16))
    as (Hidx & _).
  - simpl. lia.
  - simpl. lia.
  - reflexivity.
  - reflexivity.
  - unfold inGrid. simpl. lia.
  - lia.
  - reflexivity.
  - reflexivity.
  - exact Hidx.
Defined.

(** ** Colours *)

Lemma byte_of_float_ok f n :
  byte_of_float f = Ok n -> F32.trunc f = Some n /\ 0 <= n < 256.
Proof.
  unfold byte_of_float. destruct (F32.trunc f) as [m|]; [|done].
  case_bool_decide; [|done]. intros [= ->]. done.
Qed.

Lemma lerp_ok ca cb t colour :
  lerp ca cb t = Ok colour ->
  exists dr dg db,
    byte_of_float (F32.of_int (red cb - red ca) * t)%f32 = Ok dr /\
    byte_of_float (F32.of_int (green cb - green ca) * t)%f32 = Ok dg /\
    byte_of_float (F32.of_int (blue cb - blue ca) * t)%f32 = Ok db /\
    colour = {| red := to_byte (red ca + dr);
                green := to_byte (green ca + dg);
                blue := to_byte (blue ca + db) |}.
Proof.
  unfold lerp, mbind, result_bind, mret, result_ret.
  destruct (byte_of_float (F32.of_int (red cb - red ca) * t)%f32) as [dr|]; [|done].
  destruct (byte_of_float (F32.of_int (green cb - green ca) * t)%f32) as [dg|]; [|done].
  destruct (byte_of_float (F32.of_int (blue cb - blue ca) * t)%f32) as [db|]; [|done].
  intros [= <-]. by exists dr, dg, db.
Qed.

(** Truncation toward zero is the floor of a float that is not negative. *)
Lemma floor_trunc f : F32.negative f = false -> F32.floor f = F32.trunc f.
Proof. destruct f as [| | |[] m e]; done. Qed.

Lemma shade_pure_A :
  shade {| a := F32.of_int 1; b := F32.of_int 0 |} = Ok (Some colourA).
Proof. by vm_compute. Qed.

Lemma shade_pure_B :
  shade {| a := F32.of_int 0; b := F32.of_int 1 |} = Ok (Some colourB).
Proof. by vm_compute. Qed.

Section Pixels.
Context {cfg : Config}.

Lemma pixel_position g x y e :
  e ∈ pixel g (x, y) -> pixelRow e = Some x /\ pixelColumn e = Some y.
Proof.
  unfold pixel. cbn [fst snd].
  destruct (shade (cellAt g x y)) as [[colour|]|]; intros He;
    [|by apply elem_of_nil in He..].
  by apply list_elem_of_singleton in He as ->.
Qed.

Lemma pixel_in_picture g x y e :
  inGrid x y -> e ∈ pixel g (x, y) -> e ∈ scan ≫= pixel g.
Proof.
  intros Hin He. apply list_elem_of_bind. exists (x, y).
  split; [done | by apply scan_inGrid].
Qed.

Lemma picture_pixel g e :
  e ∈ scan ≫= pixel g ->
  exists x y, inGrid x y /\ e ∈ pixel g (x, y).
Proof.
  intros He. apply list_elem_of_bind in He as ([x y] & He & Hscan).
  exists x, y. split; [by apply scan_inGrid | done].
Qed.

End Pixels.

Section RendererClaims.
Context {cfg : Config}.

(** C5, amended: for every rendered cell with A + B != 0 each channel of
    the pixel is channelA + trunc((channelB - channelA) * t) with
    t = B/(A+B), where trunc discards the fraction (truncation toward
    zero, which is the floor when the product is not negative) and the
    conversion is defined because its result is a byte; a cell with
    (A=1, B=0) is drawn in ColorA and a cell with (A=0, B=1) in ColorB. *)
Theorem C5_colour s l g iteration x y :
  0 <= WIDTH -> 0 <= HEIGHT ->
  mem s !! l = Some g -> wellSized g -> renderable g = true -> inGrid x y ->
  let c := cellAt g x y in
  let t := (b c / (b c + a c))%f32 in
  let pr := (F32.of_int (red colourB - red colourA) * t)%f32 in
  let pg := (F32.of_int (green colourB - green colourA) * t)%f32 in
  let pb := (F32.of_int (blue colourB - blue colourA) * t)%f32 in
  exists s',
    saveSimulation (Some l) iteration s = Ok (tt, s') /\
    (F32.eqb (b c + a c)%f32 (F32.of_int 0) = false ->
     exists dr dg db,
       (F32.trunc pr = Some dr /\ 0 <= dr < 256) /\
       (F32.trunc pg = Some dg /\ 0 <= dg < 256) /\
       (F32.trunc pb = Some db /\ 0 <= db < 256) /\
       (F32.negative pr = false -> F32.floor pr = Some dr) /\
       (F32.negative pg = false -> F32.floor pg = Some dg) /\
       (F32.negative pb = false -> F32.floor pb = Some db) /\
       DrawPixel y x (to_byte (red colourA + dr)) (to_byte (green colourA + dg))
         (to_byte (blue colourA + db)) ∈ out s') /\
    (c = {| a := F32.of_int 1; b := F32.of_int 0 |} ->
     DrawPixel y x (red colourA) (green colourA) (blue colourA) ∈ out s') /\
    (c = {| a := F32.of_int 0; b := F32.of_int 1 |} ->
     DrawPixel y x (red colourB) (green colourB) (blue colourB) ∈ out s').
Proof.
  intros HW HH Hl Hg Hr Hin c t pr pg pb.
  eexists. split; [by apply (saveSimulation_run s l g)|]. cbn [out].
  assert (Hdrawn : forall e, e ∈ pixel g (x, y) ->
            e ∈ out s ++ snapshot g iteration).
  { intros e He. apply elem_of_app. right. unfold snapshot.
    apply elem_of_app. left. by apply (pixel_in_picture g x y). }
  split; [|split].
  - intros Hsum.
    destruct (renderable_shade g x y Hr Hin) as [o Ho].
    unfold shade in Ho. fold c in Ho. rewrite Hsum in Ho. fold t in Ho.
    unfold mix in Ho. fold c t in Ho.
    destruct (lerp colourA colourB t) as [colour|] eqn:Hlerp; [|done].
    apply lerp_ok in Hlerp as (dr & dg & db & Hr' & Hg' & Hb' & ->).
    apply byte_of_float_ok in Hr' as [Htr ?], Hg' as [Htg ?], Hb' as [Htb ?].
    exists dr, dg, db. fold pr in Htr. fold pg in Htg. fold pb in Htb.
    repeat (split; [done|]).
    split; [intros Hn; by rewrite floor_trunc|].
    split; [intros Hn; by rewrite floor_trunc|].
    split; [intros Hn; by rewrite floor_trunc|].
    apply Hdrawn. unfold pixel, shade. cbn [fst snd]. fold c. rewrite Hsum.
    unfold mix. fold c t. unfold lerp, mbind, result_bind, byte_of_float.
    fold pr pg pb. rewrite Htr, Htg, Htb.
    rewrite !bool_decide_eq_true_2 by done. by left.
  - intros Hc. apply Hdrawn. unfold pixel. cbn [fst snd]. fold c.
    rewrite Hc, shade_pure_A. by left.
  - intros Hc. apply Hdrawn. unfold pixel. cbn [fst snd]. fold c.
    rewrite Hc, shade_pure_B. by left.
Qed.


(** C9: every cell (x,y) that is rendered is drawn by a call of
    [DrawPixel] whose first argument, the column, is y and whose second
    argument, the row, is x: the pixel at row x and column y. *)
Theorem C9_transposed s l g iteration :
  0 <= WIDTH -> 0 <= HEIGHT ->
  mem s !! l = Some g -> wellSized g -> renderable g = true ->
  exists s',
    saveSimulation (Some l) iteration s = Ok (tt, s') /\
    out s' = out s ++ (scan ≫= pixel g)
             ++ [SaveBMPFile (fileName iteration) WIDTH HEIGHT] /\
    (forall x y, inGrid x y ->
       F32.eqb (b (cellAt g x y) + a (cellAt g x y))%f32 (F32.of_int 0) = false ->
       exists r gr bl,
         pixel g (x, y) = [DrawPixel y x r gr bl] /\
         DrawPixel y x r gr bl ∈ out s') /\
    (forall e, e ∈ scan ≫= pixel g ->
       exists x y, inGrid x y /\ e ∈ pixel g (x, y) /\
                   pixelRow e = Some x /\ pixelColumn e = Some y).
Proof.
  intros HW HH Hl Hg Hr.
  eexists. split; [by apply (saveSimulation_run s l g)|]. cbn [out].
  split; [done|]. split.
  - intros x y Hin Hsum.
    destruct (renderable_shade g x y Hr Hin) as [o Ho].
    assert (Hsome : exists colour, shade (cellAt g x y) = Ok (Some colour)).
    { unfold shade in Ho |- *. rewrite Hsum in Ho |- *.
      destruct (lerp colourA colourB (mix (cellAt g x y))); [eauto | done]. }
    destruct Hsome as [colour Hcolour].
    exists (red colour), (green colour), (blue colour).
    assert (Hp : pixel g (x, y)
                 = [DrawPixel y x (red colour) (green colour) (blue colour)]).
    { unfold pixel. cbn [fst snd]. by rewrite Hcolour. }
    split; [done|]. apply elem_of_app. right. apply elem_of_app. left.
    apply (pixel_in_picture g x y); [done|]. rewrite Hp. by left.
  - intros e He. apply picture_pixel in He as (x & y & Hin & He).
    exists x, y. split; [done|]. split; [done|]. by apply pixel_position in He.
Qed.
End RendererClaims.

(** A cell with a faintly negative B is drawn with red 0, where the
    floor of the scaled difference would give 0 + (-1). *)
Lemma C5_counterexample :
  F32.eqb (b faintlyNegative + a faintlyNegative)%f32 (F32.of_int 0) = false /\
  lerp colourA colourB (b faintlyNegative / (b faintlyNegative + a faintlyNegative))%f32
  = Ok {| red := 0; green := 0; blue := 0 |} /\
  @saveSimulation unit_config (Some 0%nat) 0 (single [faintlyNegative])
  = Ok (tt, {| mem := [[faintlyNegative]];
               out := [DrawPixel 0 0 0 0 0; SaveBMPFile "Output0.bmp" 1 1] |}) /\
  F32.floor (F32.of_int (red colourB - red colourA) * mix faintlyNegative)%f32
  = Some (-1) /\
  F32.trunc (F32.of_int (red colourB - red colourA) * mix faintlyNegative)%f32
  = Some 0 /\
  red colourA + -1 ≠ 0.
Proof. vm_compute. repeat split; discriminate. Qed.

(** Rendering the seeded 4x4 grid: the cell (2,2) holds (A=0, B=1). *)
Lemma C5_witness :
  exists s',
    @saveSimulation small_config (Some 0%nat) 0 small_state = Ok (tt, s') /\
    DrawPixel 2 2 50 230 255 ∈ out s'.
Proof.
  destruct (@C5_colour small_config small_state 0%nat small_seed 0 2 2)
    as (s' & Hrun & _ & _ & HB).
  - simpl. lia.
  - simpl. lia.
  - reflexivity.
  - reflexivity.
  - vm_compute. reflexivity.
  - unfold inGrid. simpl. lia.
  - exists s'. split; [exact Hrun|]. apply HB. vm_compute. reflexivity.
Defined.


(** Rendering the seeded 4x4 grid draws the cell (1,3) at row 1, column 3. *)
Lemma C9_witness :
  exists s' r gr bl,
    @saveSimulation small_config (Some 0%nat) 0 small_state = Ok (tt, s') /\
    DrawPixel 3 1 r gr bl ∈ out s'.
Proof.
  destruct (@C9_transposed small_config small_state 0%nat small_seed 0)
    as (s' & Hrun & _ & Hcells & _).
  - simpl. lia.
  - simpl. lia.
  - reflexivity.
  - reflexivity.
  - vm_compute. reflexivity.
  - destruct (Hcells 1 3) as (r & gr & bl & _ & Hin).
    + unfold inGrid. simpl. lia.
    + vm_compute. reflexivity.
    + exists s', r, gr, bl. split; [exact Hrun | exact Hin].
Defined.

(** ** Failed allocations *)

Lemma bind_fault {A B} (m : M A) (k : A -> M B) s e :
  m s = Undefined e -> (m ≫= k) s = Undefined e.
Proof. unfold mbind, M_bind. by intros ->. Qed.

Lemma for_range_first_fault lo hi body s e :
  lo < hi -> body lo s = Undefined e -> for_range lo hi body s = Undefined e.
Proof.
  intros Hlt Hbody. unfold for_range, for_each.
  rewrite seqZ_cons by lia. cbn [for_fold]. by apply bind_fault.
Qed.

Lemma filter_captured (cap : Z) (l : list Z) (k : Z -> list event)
    (name : Z -> string) :
  (forall i, omap (fun e => match e with
                            | SaveBMPFile n _ _ => Some n
                            | _ => None
                            end) (k i) = [name i]) ->
  omap (fun e => match e with SaveBMPFile n _ _ => Some n | _ => None end)
    (l ≫= fun i => if Z.rem i cap =? 0 then k i else [])
  = name <$> filter (fun i => Z.rem i cap = 0) l.
Proof.
  intros Hk. induction l as [|i l IH]; [done|].
  rewrite bind_cons, omap_app, IH, filter_cons.
  destruct (Z.eqb_spec (Z.rem i cap) 0) as [Hz|Hz].
  - rewrite decide_True by done. by rewrite Hk.
  - by rewrite decide_False by done.
Qed.

Section Allocation.
Context {cfg : Config}.

Lemma seedGrid_null s :
  0 < WIDTH -> 0 < HEIGHT -> seedGrid NULL s = Undefined NullPointer.
Proof.
  intros HW HH. unfold seedGrid.
  apply for_range_first_fault; [done|].
  apply for_range_first_fault; [done|].
  by destruct (withinDistanceOfCentre 0 0 CENTRE_CIRCLE_RADIUS).
Qed.

Lemma updateGrid_null s l g :
  0 < WIDTH -> 0 < HEIGHT -> mem s !! l = Some g -> wellSized g ->
  updateGrid (Some l) NULL s = Undefined NullPointer.
Proof.
  intros HW HH Hl Hg. unfold updateGrid.
  assert (Hin : inGrid 0 0) by (unfold inGrid; lia).
  apply for_range_first_fault; [done|].
  apply for_range_first_fault; [done|].
  unfold calculateNewValue.
  rewrite (bind_run _ _ _ _ _ (difference_run s l g 0 0 Hl Hg Hin)).
  rewrite (bind_run _ _ _ _ _ (load_cell s l g 0 0 Hl Hg Hin)).
  by rewrite (bind_run _ _ _ _ _ (load_cell s l g 0 0 Hl Hg Hin)).
Qed.

Lemma savedFiles_picture g (l : list (Z * Z)) : savedFiles (l ≫= pixel g) = [].
Proof.
  induction l as [|p l IH]; [done|].
  unfold savedFiles in *. rewrite bind_cons, omap_app, IH.
  unfold pixel. by destruct (shade (cellAt g p.1 p.2)) as [[?|]|].
Qed.

Lemma savedFiles_snapshot g i : savedFiles (snapshot g i) = [fileName i].
Proof.
  unfold snapshot. pose proof (savedFiles_picture g scan) as Hp.
  unfold savedFiles in *. by rewrite omap_app, Hp.
Qed.
End Allocation.

Section DriverClaims.
Context {cfg : Config}.

(** C7, amended: the result of [malloc] is never tested.  When the first
    allocation fails the run goes on to seed the null buffer, and when
    the second fails the first step writes through the null buffer:
    either way the run is not aborted but dereferences a null pointer,
    which is undefined behaviour. *)
Theorem C7_allocation_unchecked second junk1 :
  0 < WIDTH -> 0 < HEIGHT ->
  (forall s, createGrid alloc_fails s = Ok (NULL, s)) /\
  (forall s, seedGrid NULL s = Undefined NullPointer) /\
  main alloc_fails second = Undefined NullPointer /\
  (0 < ITERATIONS ->
   main (alloc_gives junk1) alloc_fails = Undefined NullPointer).
Proof.
  intros HW HH. split; [done|]. split; [intros s; by apply seedGrid_null|].
  split.
  - unfold main, startSimulation.
    erewrite bind_run by done.
    destruct second as [|junk2].
    + erewrite bind_run by done. erewrite bind_run by done.
      apply bind_fault. by apply seedGrid_null.
    + erewrite bind_run by done. erewrite bind_run by done.
      apply bind_fault. by apply seedGrid_null.
  - intros HN. unfold main, startSimulation.
    erewrite bind_run by done. erewrite bind_run by done.
    erewrite bind_run by done. cbn [initial_state mem out app length].
    set (g1 := junk1 <$> seq 0 (Z.to_nat (WIDTH * HEIGHT))).
    assert (Hg1 : wellSized g1).
    { unfold wellSized, g1. rewrite length_fmap, length_seq. nia. }
    erewrite bind_run by (apply (seedGrid_run _ 0%nat g1); done || lia).
    cbn [mem out insert list_insert].
    apply bind_fault. apply for_range_first_fault; [done|].
    change (Z.rem 0 2 =? 0) with true. cbn match.
    apply bind_fault. apply (updateGrid_null _ 0%nat seed); try done.
    apply wellSized_seed; lia.
Qed.

(** C8: the driver swaps the roles of the two buffers every iteration;
    a run writes one file per iteration index divisible by
    [IterationCapture], starting at 0, and a last one labelled
    [ITERATIONS], each named Output<index>.bmp, and every picture,
    the last one included, is drawn from the settled state of its
    iteration: the seeded grid advanced that many times. *)
Theorem C8_snapshots junk1 junk2 :
  0 <= WIDTH -> 0 <= HEIGHT -> 0 <= ITERATIONS -> 0 < IterationCapture ->
  renderableRun = true ->
  exists final g1 g2,
    main (alloc_gives junk1) (alloc_gives junk2) = Ok (tt, final) /\
    mem final = [g1; g2] /\
    (if Z.rem ITERATIONS 2 =? 0 then g1 else g2) = settled ITERATIONS /\
    (0 < ITERATIONS ->
     (if Z.rem ITERATIONS 2 =? 0 then g2 else g1) = settled (ITERATIONS - 1)) /\
    out final =
      LoadBMPFile "blank.bmp"
      :: (seqZ 0 ITERATIONS ≫= fun i =>
            if Z.rem i IterationCapture =? 0
            then (scan ≫= pixel (settled i))
                 ++ [SaveBMPFile ("Output" ++ sprintf_d i ++ ".bmp") WIDTH HEIGHT]
            else [])
      ++ (scan ≫= pixel (settled ITERATIONS))
      ++ [SaveBMPFile ("Output" ++ sprintf_d ITERATIONS ++ ".bmp") WIDTH HEIGHT] /\
    savedFiles (out final) =
      ((fun i => ("Output" ++ sprintf_d i ++ ".bmp")%string)
         <$> filter (fun i => Z.rem i IterationCapture = 0) (seqZ 0 ITERATIONS))
      ++ [("Output" ++ sprintf_d ITERATIONS ++ ".bmp")%string] /\
    settled 0 = seed /\
    (forall i, 0 <= i -> settled (i + 1) = advance (settled i)).
Proof.
  intros HW HH HN Hcap Hrun.
  destruct (main_run junk1 junk2 HW HH HN ltac:(lia) Hrun)
    as (final & Hmain & Hout & _ & g1 & g2 & Hmem & _ & _ & Hcur & Hold).
  cbn [mem] in Hmem. exists final, g1, g2.
  split; [done|]. split; [done|]. split; [done|]. split; [done|].
  split; [by rewrite Hout|].
  split; [|split; [done | apply settled_succ]].
  rewrite Hout. unfold runTrace, savedFiles.
  change (omap ?f (?e :: ?l)) with (omap f l).
  rewrite omap_app. f_equal.
  - apply (filter_captured IterationCapture (seqZ 0 ITERATIONS)
             (fun i => snapshot (settled i) i) fileName).
    intros i. apply savedFiles_snapshot.
  - apply savedFiles_snapshot.
Qed.
End DriverClaims.

(** With the sizes of [Main.c], a failed first [malloc] leads to a write
    through the null pointer in [seedGrid]. *)
Lemma C7_counterexample :
  @createGrid source_config alloc_fails initial_state = Ok (NULL, initial_state) /\
  @main source_config alloc_fails (alloc_gives junk) = Undefined NullPointer.
Proof. split; [reflexivity|]. by vm_compute. Qed.

(** The same on the 4x4 grid, for either allocation. *)
Lemma C7_witness :
  @main small_config alloc_fails alloc_fails = Undefined NullPointer /\
  @main small_config (alloc_gives junk) alloc_fails = Undefined NullPointer.
Proof.
  destruct (@C7_allocation_unchecked small_config alloc_fails junk)
    as (_ & _ & Hfirst & Hsecond).
  - simpl. lia.
  - simpl. lia.
  - split; [exact Hfirst|]. apply Hsecond. simpl. lia.
Defined.

(** The run of five iterations on the 4x4 grid saves Output0, Output2,
    Output4 and the final Output5. *)
Lemma C8_witness :
  exists final,
    @main small_config (alloc_gives junk) (alloc_gives junk) = Ok (tt, final) /\
    @savedFiles (out final)
    = ["Output0.bmp"; "Output2.bmp"; "Output4.bmp"; "Output5.bmp"]%string.
Proof.
  destruct (@C8_snapshots small_config junk junk)
    as (final & g1 & g2 & Hrun & _ & _ & _ & _ & Hfiles & _).
  - simpl. lia.
  - simpl. lia.
  - simpl. lia.
  - simpl. lia.
  - vm_compute. reflexivity.
  - exists final. split; [exact Hrun|]. rewrite Hfiles. vm_compute. reflexivity.
Defined.

(** * Further properties *)

Lemma bind_singletons {A B} (l : list A) (k : A -> list B) (f : A -> B) :
  (forall p, p ∈ l -> k p = [f p]) -> l ≫= k = f <$> l.
Proof.
  induction l as [|p l IH]; intros Hk; [done|].
  rewrite bind_cons, fmap_cons, Hk by left.
  cbn. f_equal. apply IH. intros q Hq. apply Hk. by right.
Qed.

Lemma length_bind_le {A B} (l : list A) (k : A -> list B) :
  (forall p, (length (k p) <= 1)%nat) -> (length (l ≫= k) <= length l)%nat.
Proof.
  intros Hk. induction l as [|p l IH]; [done|].
  rewrite bind_cons, length_app. cbn. specialize (Hk p). lia.
Qed.

Section SeedProperties.
Context {cfg : Config}.

Lemma length_scan : length scan = (Z.to_nat WIDTH * Z.to_nat HEIGHT)%nat.
Proof.
  unfold scan.
  assert (Hrow : forall x : Z,
             length (y ← seqZ 0 HEIGHT; [(x, y)]) = Z.to_nat HEIGHT).
  { intros x. rewrite (bind_singletons _ _ (fun y => (x, y))) by done.
    by rewrite length_fmap, length_seqZ. }
  rewrite <-(length_seqZ 0 WIDTH).
  induction (seqZ 0 WIDTH) as [|x l IH]; [done|].
  rewrite bind_cons, length_app, Hrow, IH. done.
Qed.

(** X1: on the grid [xyToIndex] is a bijection between the cells and the
    slots 0 .. WIDTH*HEIGHT-1 of a buffer, with inverse
    (i mod WIDTH, i / WIDTH); off the grid it wraps into the next row,
    which is why the neighbours are tested with [isWithinGrid]. *)
Theorem X1_index_bijection :
  0 < WIDTH ->
  (forall x y, inGrid x y ->
     0 <= xyToIndex x y < WIDTH * HEIGHT /\
     xyToIndex x y `mod` WIDTH = x /\ xyToIndex x y `div` WIDTH = y) /\
  (forall i, 0 <= i < WIDTH * HEIGHT ->
     inGrid (i `mod` WIDTH) (i `div` WIDTH) /\
     xyToIndex (i `mod` WIDTH) (i `div` WIDTH) = i) /\
  (forall x y x' y', inGrid x y -> inGrid x' y' ->
     xyToIndex x y = xyToIndex x' y' -> x = x' /\ y = y') /\
  (forall x y, xyToIndex (x + WIDTH) y = xyToIndex x (y + 1)).
Proof.
  intros HW. split; [|split; [|split]].
  - intros x y Hin. split; [by apply xyToIndex_range | by apply xyToIndex_split].
  - intros i Hi. by apply index_inGrid.
  - apply xyToIndex_inj.
  - intros x y. unfold xyToIndex. ring.
Qed.

Lemma shade_seedCell x y :
  shade (seedCell x y)
  = Ok (Some (if withinDistanceOfCentre x y CENTRE_CIRCLE_RADIUS
              then colourB else colourA)).
Proof.
  unfold seedCell.
  destruct (withinDistanceOfCentre x y CENTRE_CIRCLE_RADIUS);
    [apply shade_pure_B | apply shade_pure_A].
Qed.

Lemma renderable_seed : renderable seed = true.
Proof.
  unfold renderable. apply forallb_forall. intros [x y] Hin.
  apply list_elem_of_In, scan_inGrid in Hin. cbn [fst snd].
  unfold seed. by rewrite cellAt_gridOf, shade_seedCell.
Qed.

(** X2: [seedGrid] overwrites the whole buffer without reading it: the
    result does not depend on what the buffer held, seeding again
    changes nothing, and no other block and no event is touched. *)
Theorem X2_seedGrid_overwrites s l g :
  0 <= WIDTH -> 0 <= HEIGHT ->
  mem s !! l = Some g -> wellSized g ->
  exists s',
    seedGrid (Some l) s = Ok (tt, s') /\
    seedGrid (Some l) s' = Ok (tt, s') /\
    (forall other, wellSized other ->
       seedGrid (Some l) {| mem := <[l := other]> (mem s); out := out s |}
       = Ok (tt, s')) /\
    (forall l', l' ≠ l -> mem s' !! l' = mem s !! l') /\
    out s' = out s.
Proof.
  intros HW HH Hl Hg.
  pose proof (lookup_lt_Some _ _ _ Hl) as Hlt.
  exists {| mem := <[l := seed]> (mem s); out := out s |}.
  split; [by apply (seedGrid_run s l g)|].
  split; [|split; [|split; [|done]]].
  - rewrite (seedGrid_run _ l seed); cbn [mem out]; try done.
    + by rewrite list_insert_insert_eq.
    + by apply list_lookup_insert_eq.
    + by apply wellSized_seed.
  - intros other Hother.
    rewrite (seedGrid_run _ l other); cbn [mem out]; try done.
    + by rewrite list_insert_insert_eq.
    + by apply list_lookup_insert_eq.
  - intros l' Hl'. cbn [mem]. by rewrite list_lookup_insert_ne.
Qed.

(** X3: the picture of a freshly seeded buffer has one pixel per cell,
    none skipped, in scan order: ColorB for a cell inside the circle and
    ColorA for a cell outside, followed by the call that saves the
    file. *)
Theorem X3_seeded_grid_drawn s l g iteration :
  0 <= WIDTH -> 0 <= HEIGHT ->
  mem s !! l = Some g -> wellSized g ->
  let paint := fun p : Z * Z =>
    let c := if withinDistanceOfCentre p.1 p.2 CENTRE_CIRCLE_RADIUS
             then colourB else colourA in
    DrawPixel p.2 p.1 (red c) (green c) (blue c) in
  (seedGrid (Some l);; saveSimulation (Some l) iteration) s
  = Ok (tt, {| mem := <[l := seed]> (mem s);
               out := out s ++ (paint <$> scan)
                      ++ [SaveBMPFile (fileName iteration) WIDTH HEIGHT] |}) /\
  length (paint <$> scan) = Z.to_nat (WIDTH * HEIGHT).
Proof.
  intros HW HH Hl Hg paint.
  pose proof (lookup_lt_Some _ _ _ Hl) as Hlt.
  split.
  - rewrite (bind_run _ _ _ _ _ (seedGrid_run s l g HW HH Hl Hg)).
    assert (Hpic : scan ≫= pixel seed = paint <$> scan).
    { apply bind_singletons. intros [x y] Hin. apply scan_inGrid in Hin.
      unfold pixel, paint. cbn [fst snd]. unfold seed at 1.
      by rewrite cellAt_gridOf, shade_seedCell. }
    rewrite (saveSimulation_run _ l seed); cbn [mem out]; try done.
    + unfold snapshot. by rewrite Hpic.
    + by apply list_lookup_insert_eq.
    + by apply wellSized_seed.
    + apply renderable_seed.
  - rewrite length_fmap, length_scan. lia.
Qed.

(** The positions the loops over the grid visit are pairwise distinct. *)
Lemma NoDup_scan : NoDup scan.
Proof.
  unfold scan. apply NoDup_bind.
  - intros x1 x2 p _ _ H1 H2.
    apply list_elem_of_bind in H1 as (y1 & H1 & _).
    apply list_elem_of_bind in H2 as (y2 & H2 & _).
    apply list_elem_of_singleton in H1, H2. congruence.
  - intros x _. rewrite (bind_singletons _ _ (fun y => (x, y))) by done.
    apply NoDup_fmap_2; [|apply NoDup_seqZ]. intros y1 y2. congruence.
  - apply NoDup_seqZ.
Qed.

(** The pixels drawn for the positions [l] address a sub-sequence of [l]. *)
Lemma drawn_positions g (l : list (Z * Z)) :
  ((fun e => (pixelRow e, pixelColumn e)) <$> (l ≫= pixel g))
  `sublist_of` ((fun p => (Some p.1, Some p.2)) <$> l).
Proof.
  induction l as [|p l IH]; [done|].
  rewrite bind_cons, fmap_app, fmap_cons.
  unfold pixel at 1. destruct (shade _) as [[colour|]|]; cbn.
  - by apply sublist_skip.
  - by apply sublist_cons.
  - by apply sublist_cons.
Qed.

(** X4: what a completed [saveSimulation] hands to LibBMP.  The pixels
    are those of the cells in scan order, then comes the single call of
    [SaveBMPFile] with WIDTH and HEIGHT, and the store is unchanged.  No
    two pixels address the same (row, column), so there is at most one
    per cell; every pixel has its first argument in 0 .. HEIGHT-1, its
    second in 0 .. WIDTH-1 and channels that are bytes. *)
Theorem X4_drawn_pixels_in_range s l g iteration :
  0 <= WIDTH -> 0 <= HEIGHT ->
  mem s !! l = Some g -> wellSized g -> renderable g = true ->
  saveSimulation (Some l) iteration s
  = Ok (tt, {| mem := mem s;
               out := out s ++ (scan ≫= pixel g)
                      ++ [SaveBMPFile (fileName iteration) WIDTH HEIGHT] |}) /\
  NoDup ((fun e => (pixelRow e, pixelColumn e)) <$> (scan ≫= pixel g)) /\
  (forall i j e e',
     (scan ≫= pixel g) !! i = Some e -> (scan ≫= pixel g) !! j = Some e' ->
     pixelRow e = pixelRow e' -> pixelColumn e = pixelColumn e' -> i = j) /\
  (length (scan ≫= pixel g) <= Z.to_nat (WIDTH * HEIGHT))%nat /\
  forall e, e ∈ scan ≫= pixel g ->
    exists first second r gr bl,
      e = DrawPixel first second r gr bl /\
      0 <= first < HEIGHT /\ 0 <= second < WIDTH /\
      isByte r /\ isByte gr /\ isByte bl.
Proof.
  intros HW HH Hl Hg Hr.
  assert (Hnodup : NoDup ((fun e => (pixelRow e, pixelColumn e))
                          <$> (scan ≫= pixel g))).
  { eapply sublist_NoDup; [|apply drawn_positions].
    apply NoDup_fmap_2; [|apply NoDup_scan].
    intros [x y] [x' y']. cbn. congruence. }
  split; [by apply saveSimulation_run|]. split; [exact Hnodup|].
  split; [|split].
  - intros i j e e' Hi Hj Hrow Hcol.
    apply (NoDup_lookup _ i j (pixelRow e, pixelColumn e) Hnodup).
    + by rewrite list_lookup_fmap, Hi.
    + by rewrite list_lookup_fmap, Hj, Hrow, Hcol.
  - etrans; [apply length_bind_le|rewrite length_scan; lia].
    intros p. unfold pixel. destruct (shade _) as [[?|]|]; cbn; lia.
  - intros e He. apply picture_pixel in He as (x & y & [Hx Hy] & He).
    unfold pixel in He. cbn [fst snd] in He.
    destruct (shade (cellAt g x y)) as [[colour|]|] eqn:Hs;
      [|by apply elem_of_nil in He..].
    apply list_elem_of_singleton in He as ->.
    exists y, x, (red colour), (green colour), (blue colour).
    split; [done|]. split; [done|]. split; [done|].
    unfold shade in Hs.
    destruct (F32.eqb _ _); [done|].
    destruct (lerp colourA colourB (mix (cellAt g x y))) as [c|] eqn:Hlerp; [|done].
    injection Hs as ->.
    apply lerp_ok in Hlerp as (dr & dg & db & _ & _ & _ & ->).
    unfold isByte, to_byte. cbn [red green blue].
    repeat split; apply Z.mod_pos_bound; lia.
Qed.
End SeedProperties.

Lemma X1_index_bijection_witness :
  @xyToIndex small_config (3 + 4) 1 = @xyToIndex small_config 3 2.
Proof.
  destruct (@X1_index_bijection small_config) as (_ & _ & _ & Hwrap).
  - simpl. lia.
  - apply Hwrap.
Defined.

Lemma X2_seedGrid_overwrites_witness :
  exists s', @seedGrid small_config (Some 1%nat) small_state = Ok (tt, s').
Proof.
  destruct (@X2_seedGrid_overwrites small_config small_state 1%nat (junk <$> seq 0 16))
    as (s' & Hrun & _).
  - simpl. lia.
  - simpl. lia.
  - reflexivity.
  - reflexivity.
  - exists s'. exact Hrun.
Defined.

Lemma X3_seeded_grid_drawn_witness :
  exists s',
    (@seedGrid small_config (Some 1%nat);;
     @saveSimulation small_config (Some 1%nat) 0) small_state = Ok (tt, s').
Proof.
  destruct (@X3_seeded_grid_drawn small_config small_state 1%nat
              (junk <$> seq 0 16) 0) as (Hrun & _).
  - simpl. lia.
  - simpl. lia.
  - reflexivity.
  - reflexivity.
  - eexists. exact Hrun.
Defined.

Lemma X4_drawn_pixels_in_range_witness :
  exists s', @saveSimulation small_config (Some 0%nat) 7 small_state = Ok (tt, s').
Proof.
  destruct (@X4_drawn_pixels_in_range small_config small_state 0%nat small_seed 7)
    as (Hrun & _).
  - simpl. lia.
  - simpl. lia.
  - reflexivity.
  - reflexivity.
  - vm_compute. reflexivity.
  - eexists. exact Hrun.
Defined.

(** ** The stencil *)

Lemma foldl_ext_in {A B} (f f' : A -> B -> A) (l : list B) acc :
  (forall acc t, t ∈ l -> f acc t = f' acc t) -> foldl f acc l = foldl f' acc l.
Proof.
  revert acc. induction l as [|t l IH]; intros acc Hf; [done|].
  cbn. rewrite Hf by left. apply IH. intros acc' t' Ht'. apply Hf. by right.
Qed.

Lemma foldl_invariant {A B} (P : A -> Prop) (f : A -> B -> A) (l : list B) acc :
  P acc -> (forall acc t, t ∈ l -> P acc -> P (f acc t)) -> P (foldl f acc l).
Proof.
  revert acc. induction l as [|t l IH]; intros acc Hacc Hf; [done|].
  cbn. apply IH; [apply Hf; [by left | done]|].
  intros acc' t' Ht'. apply Hf. by right.
Qed.

Section Stencil.
Context {cfg : Config}.

Lemma near_self x y : near x y x y.
Proof. unfold near. lia. Qed.

Lemma neighbour_near w u v x y :
  Neighbour w u v ∈ contributions x y -> inGrid u v /\ near x y u v.
Proof.
  intros H. apply neighbour_contributes in H as (Hin & _ & Hx & Hy & _).
  by split.
Qed.

Lemma step_local g g' x y :
  inGrid x y ->
  (forall u v, inGrid u v -> near x y u v -> cellAt g u v = cellAt g' u v) ->
  step g x y = step g' x y.
Proof.
  intros Hin Hagree. unfold step, neighbourDifference.
  rewrite (Hagree x y Hin (near_self x y)).
  rewrite (foldl_ext_in (accumulate g (cellAt g' x y))
             (accumulate g' (cellAt g' x y))); [done|].
  intros acc [|w u v] Ht; [done|]. cbn.
  apply neighbour_near in Ht as [Hin' Hnear]. by rewrite (Hagree u v).
Qed.

(** X5: the new value of a cell depends only on its 3x3 neighbourhood:
    stepped from two buffers that agree on the in-grid cells around
    (x,y), the cell (x,y) of the two results is the same. *)
Theorem X5_stencil_is_local s1 s2 cur new g1 g2 d1 d2 x y :
  0 <= WIDTH -> 0 <= HEIGHT -> cur ≠ new -> inGrid x y ->
  mem s1 !! cur = Some g1 -> wellSized g1 -> mem s1 !! new = Some d1 -> wellSized d1 ->
  mem s2 !! cur = Some g2 -> wellSized g2 -> mem s2 !! new = Some d2 -> wellSized d2 ->
  (forall u v, inGrid u v -> near x y u v -> cellAt g1 u v = cellAt g2 u v) ->
  exists s1' s2' n1 n2,
    updateGrid (Some cur) (Some new) s1 = Ok (tt, s1') /\
    updateGrid (Some cur) (Some new) s2 = Ok (tt, s2') /\
    mem s1' !! new = Some n1 /\ mem s2' !! new = Some n2 /\
    cellAt n1 x y = cellAt n2 x y.
Proof.
  intros HW HH Hne Hin Hc1 Hg1 Hn1 Hd1 Hc2 Hg2 Hn2 Hd2 Hagree.
  pose proof (lookup_lt_Some _ _ _ Hn1). pose proof (lookup_lt_Some _ _ _ Hn2).
  eexists _, _, (advance g1), (advance g2).
  split; [by apply (updateGrid_run s1 cur new g1 d1)|].
  split; [by apply (updateGrid_run s2 cur new g2 d2)|]. cbn [mem].
  split; [by apply list_lookup_insert_eq|].
  split; [by apply list_lookup_insert_eq|].
  unfold advance. rewrite !cellAt_gridOf by done. by apply step_local.
Qed.

Lemma difference_b_zero g x y :
  inGrid x y ->
  (forall u v, inGrid u v -> near x y u v -> b (cellAt g u v) = S754_zero false) ->
  b (neighbourDifference g x y) = S754_zero false.
Proof.
  intros Hin Hzero. unfold neighbourDifference.
  apply (foldl_invariant (fun c => b c = S754_zero false)); [done|].
  intros acc [|w u v] Ht Hacc.
  - cbn. rewrite Hacc, (Hzero x y Hin (near_self x y)). done.
  - pose proof (neighbour_near _ _ _ _ _ Ht) as [Hin' Hnear].
    apply neighbour_contributes in Ht as (_ & _ & _ & _ & ->).
    cbn. rewrite Hacc, (Hzero u v Hin' Hnear).
    by case_bool_decide.
Qed.

Lemma step_b_zero g x y :
  inGrid x y ->
  (forall u v, inGrid u v -> near x y u v -> b (cellAt g u v) = S754_zero false) ->
  isFinite (a (cellAt g x y)) = true ->
  b (step g x y) = S754_zero false.
Proof.
  intros Hin Hzero Hfin. unfold step. cbn [b].
  rewrite (difference_b_zero g x y Hin Hzero).
  rewrite (Hzero x y Hin (near_self x y)).
  destruct (a (cellAt g x y)) as [[]| | |[] m e]; try done.
Qed.

(** X6: B does not appear from nothing: when every cell of the current
    buffer has B = +0 and an A that is a number, every cell of the next
    buffer has B = +0 after [updateGrid]. *)
Theorem X6_no_B_from_nothing s cur new g d :
  0 <= WIDTH -> 0 <= HEIGHT -> cur ≠ new ->
  mem s !! cur = Some g -> wellSized g -> mem s !! new = Some d -> wellSized d ->
  (forall u v, inGrid u v ->
     b (cellAt g u v) = F32.of_int 0 /\ isFinite (a (cellAt g u v)) = true) ->
  exists s' next,
    updateGrid (Some cur) (Some new) s = Ok (tt, s') /\
    mem s' !! new = Some next /\
    forall x y, inGrid x y -> b (cellAt next x y) = F32.of_int 0.
Proof.
  intros HW HH Hne Hcur Hg Hnew Hd Hzero.
  pose proof (lookup_lt_Some _ _ _ Hnew).
  eexists _, (advance g).
  split; [by apply (updateGrid_run s cur new g d)|]. cbn [mem].
  split; [by apply list_lookup_insert_eq|].
  intros x y Hin. unfold advance. rewrite cellAt_gridOf by done.
  apply step_b_zero; [done | | by apply Hzero].
  intros u v Hin' _. by apply Hzero.
Qed.

Local Ltac settle_neighbours :=
  unfold step, neighbourDifference; rewrite contributions_unfold;
  unfold neighbourTerm; cbn [fst snd];
  repeat match goal with
    | |- context [isWithinGrid ?u ?v] =>
        first [ rewrite (within_in u v) by (unfold inGrid; lia)
              | rewrite (within_out u v) by (unfold inGrid; lia) ]
    end;
  cbn [app foldl accumulate];
  repeat match goal with
    | H : forall u v, inGrid u v -> near _ _ u v -> cellAt _ u v = undisturbed
      |- context [cellAt ?g ?u ?v] =>
        rewrite (H u v) by (unfold inGrid, near; lia)
    end;
  by vm_compute.

Lemma calm_interior g x y :
  interior x y ->
  (forall u v, inGrid u v -> near x y u v -> cellAt g u v = undisturbed) ->
  step g x y = undisturbed.
Proof. intros [? ?] ?. settle_neighbours. Qed.

Lemma calm_edge g x y :
  2 <= WIDTH -> 2 <= HEIGHT -> edge x y ->
  (forall u v, inGrid u v -> near x y u v -> cellAt g u v = undisturbed) ->
  step g x y = {| a := F32.make 11744051 (-24); b := F32.of_int 0 |}.
Proof. intros ? ? [[[?|?] ?]|[? [?|?]]] ?; settle_neighbours. Qed.

Lemma calm_corner g x y :
  2 <= WIDTH -> 2 <= HEIGHT -> corner x y ->
  (forall u v, inGrid u v -> near x y u v -> cellAt g u v = undisturbed) ->
  step g x y = {| a := F32.make 15099494 (-25); b := F32.of_int 0 |}.
Proof. intros ? ? [[?|?] [?|?]] ?; settle_neighbours. Qed.
End Stencil.

Section CalmRegion.
Context {cfg : Config}.

(** X7: a region that holds A = 1, B = 0 is stationary in the interior
    and drains at the border.  When every in-grid cell around (x,y) is
    undisturbed, [updateGrid] leaves an interior cell undisturbed, gives
    an edge cell A = 0.7 and a corner cell A = 0.45 (as binary32), with
    B = 0: positions off the grid contribute nothing, while the cell
    still loses its full self term. *)
Theorem X7_calm_region s cur new g d x y :
  0 <= WIDTH -> 0 <= HEIGHT -> cur ≠ new ->
  mem s !! cur = Some g -> wellSized g -> mem s !! new = Some d -> wellSized d ->
  inGrid x y ->
  (forall u v, inGrid u v -> near x y u v -> cellAt g u v = undisturbed) ->
  exists s' next,
    updateGrid (Some cur) (Some new) s = Ok (tt, s') /\
    mem s' !! new = Some next /\
    (interior x y -> cellAt next x y = undisturbed) /\
    (2 <= WIDTH -> 2 <= HEIGHT -> edge x y ->
     cellAt next x y = {| a := F32.make 11744051 (-24); b := F32.of_int 0 |}) /\
    (2 <= WIDTH -> 2 <= HEIGHT -> corner x y ->
     cellAt next x y = {| a := F32.make 15099494 (-25); b := F32.of_int 0 |}).
Proof.
  intros HW HH Hne Hcur Hg Hnew Hd Hin Hcalm.
  pose proof (lookup_lt_Some _ _ _ Hnew).
  eexists _, (advance g).
  split; [by apply (updateGrid_run s cur new g d)|]. cbn [mem].
  split; [by apply list_lookup_insert_eq|].
  unfold advance. rewrite cellAt_gridOf by done.
  split; [intros; by apply calm_interior|].
  split; [intros; by apply calm_edge | intros; by apply calm_corner].
Qed.

(** The square of an int of at most 15 bits, of at most 46340. *)
Lemma square_fits n (u : Z) : 0 <= n -> - n <= u <= n -> 0 <= square u <= n * n.
Proof.
  intros Hn Hu. unfold square. pose proof (Z.square_nonneg u).
  assert (Hp : 0 <= (n - u) * (n + u)) by (apply Z.mul_nonneg_nonneg; lia).
  replace ((n - u) * (n + u)) with (n * n - u * u) in Hp by ring. lia.
Qed.

(** X9: the seed is symmetric and has two kinds of cells, for sizes of
    at most 32767 and a radius of at most 46340 in absolute value, where
    no [int] that [seedGrid] computes leaves the range of 32 bits.
    Mirroring a cell at the centre column or at the centre row does not
    change what [seedGrid] writes; every cell is (A=1, B=0) or
    (A=0, B=1); a radius of 0 seeds no cell with B, any other such radius
    seeds the centre cell; and the sign of the radius does not matter. *)
Theorem X9_seed_symmetry s l g :
  0 <= WIDTH <= 32767 -> 0 <= HEIGHT <= 32767 ->
  -46340 <= CENTRE_CIRCLE_RADIUS <= 46340 ->
  mem s !! l = Some g -> wellSized g ->
  exists s' sg,
    seedGrid (Some l) s = Ok (tt, s') /\ mem s' !! l = Some sg /\
    (forall x y, inGrid x y ->
       0 <= xyToIndex x y < 2 ^ 31 /\
       -32767 <= x - WIDTH ÷ 2 <= 32767 /\ -32767 <= y - HEIGHT ÷ 2 <= 32767 /\
       0 <= square (x - WIDTH ÷ 2) < 2 ^ 31 /\
       0 <= square (y - HEIGHT ÷ 2) < 2 ^ 31 /\
       0 <= square (x - WIDTH ÷ 2) + square (y - HEIGHT ÷ 2) < 2 ^ 31) /\
    0 <= square CENTRE_CIRCLE_RADIUS < 2 ^ 31 /\
    (forall x y, inGrid x y -> inGrid (2 * (WIDTH ÷ 2) - x) y ->
       cellAt sg (2 * (WIDTH ÷ 2) - x) y = cellAt sg x y) /\
    (forall x y, inGrid x y -> inGrid x (2 * (HEIGHT ÷ 2) - y) ->
       cellAt sg x (2 * (HEIGHT ÷ 2) - y) = cellAt sg x y) /\
    (forall x y, inGrid x y ->
       cellAt sg x y = undisturbed \/ cellAt sg x y = seeded) /\
    (CENTRE_CIRCLE_RADIUS = 0 ->
     forall x y, inGrid x y -> cellAt sg x y = undisturbed) /\
    (CENTRE_CIRCLE_RADIUS ≠ 0 -> inGrid (WIDTH ÷ 2) (HEIGHT ÷ 2) ->
     cellAt sg (WIDTH ÷ 2) (HEIGHT ÷ 2) = seeded) /\
    (forall x y r, inGrid x y -> -46340 <= r <= 46340 ->
       0 <= square (- r) < 2 ^ 31 /\ 0 <= square r < 2 ^ 31 /\
       withinDistanceOfCentre x y (- r) = withinDistanceOfCentre x y r).
Proof.
  intros HW HH HR Hl Hg.
  pose proof (lookup_lt_Some _ _ _ Hl).
  assert (Hradius : forall r, -46340 <= r <= 46340 -> 0 <= square r < 2 ^ 31).
  { intros r Hr. pose proof (square_fits 46340 r ltac:(lia) ltac:(lia)). lia. }
  assert (Hcw : 0 <= WIDTH ÷ 2 <= WIDTH).
  { pose proof (Z.quot_rem' WIDTH 2).
    assert (0 <= Z.rem WIDTH 2 < 2) by (apply Z.rem_bound_pos; lia). lia. }
  assert (Hch : 0 <= HEIGHT ÷ 2 <= HEIGHT).
  { pose proof (Z.quot_rem' HEIGHT 2).
    assert (0 <= Z.rem HEIGHT 2 < 2) by (apply Z.rem_bound_pos; lia). lia. }
  eexists _, seed. split; [apply (seedGrid_run s l g); (done || lia)|]. cbn [mem].
  split; [by apply list_lookup_insert_eq|].
  unfold seed.
  split; [|split; [|split; [|split; [|split; [|split; [|split]]]]]].
  - intros x y [Hx Hy].
    assert (0 <= square (x - WIDTH ÷ 2) <= 32767 * 32767)
      by (apply square_fits; lia).
    assert (0 <= square (y - HEIGHT ÷ 2) <= 32767 * 32767)
      by (apply square_fits; lia).
    assert (0 <= y * WIDTH <= 32767 * 32767).
    { split; [apply Z.mul_nonneg_nonneg; lia|].
      apply Z.mul_le_mono_nonneg; lia. }
    unfold xyToIndex. lia.
  - apply Hradius. lia.
  - intros x y Hin Hin'. rewrite !cellAt_gridOf by (done || lia).
    unfold seedCell, withinDistanceOfCentre.
    replace (square (2 * (WIDTH ÷ 2) - x - WIDTH ÷ 2))
      with (square (x - WIDTH ÷ 2)) by (unfold square; ring). done.
  - intros x y Hin Hin'. rewrite !cellAt_gridOf by (done || lia).
    unfold seedCell, withinDistanceOfCentre.
    replace (square (2 * (HEIGHT ÷ 2) - y - HEIGHT ÷ 2))
      with (square (y - HEIGHT ÷ 2)) by (unfold square; ring). done.
  - intros x y Hin. rewrite cellAt_gridOf by (done || lia). unfold seedCell.
    destruct (withinDistanceOfCentre x y CENTRE_CIRCLE_RADIUS); [by right | by left].
  - intros HR0 x y Hin. rewrite cellAt_gridOf by (done || lia).
    unfold seedCell, withinDistanceOfCentre. rewrite HR0.
    destruct (Z.ltb_spec (square (x - WIDTH ÷ 2) + square (y - HEIGHT ÷ 2))
                (square 0)) as [Hlt|]; [|done].
    unfold square in Hlt.
    pose proof (Z.square_nonneg (x - WIDTH ÷ 2)).
    pose proof (Z.square_nonneg (y - HEIGHT ÷ 2)). lia.
  - intros HR0 Hin. rewrite cellAt_gridOf by (done || lia).
    unfold seedCell, withinDistanceOfCentre.
    destruct (Z.ltb_spec (square (WIDTH ÷ 2 - WIDTH ÷ 2)
                          + square (HEIGHT ÷ 2 - HEIGHT ÷ 2))
                (square CENTRE_CIRCLE_RADIUS)) as [|Hge]; [done|].
    unfold square in Hge. rewrite !Z.sub_diag in Hge. nia.
  - intros x y r _ Hr.
    split; [apply Hradius; lia|]. split; [by apply Hradius|].
    unfold withinDistanceOfCentre.
    by replace (square (- r)) with (square r) by (unfold square; ring).
Qed.
End CalmRegion.

(** ** Interpolation at its ends *)

Lemma scaled_by_zero n :
  -255 <= n <= 255 -> byte_of_float (F32.of_int n * F32.of_int 0)%f32 = Ok 0.
Proof.
  intros Hn.
  assert (Hall : forallb (fun n =>
            match byte_of_float (F32.of_int n * F32.of_int 0)%f32 with
            | Ok m => m =? 0
            | Undefined _ => false
            end) (seqZ (-255) 511) = true) by by vm_compute.
  rewrite forallb_forall in Hall. specialize (Hall n).
  rewrite <-list_elem_of_In, elem_of_seqZ in Hall. specialize (Hall ltac:(lia)).
  destruct (byte_of_float _); [|done]. by apply Z.eqb_eq in Hall as ->.
Qed.

Lemma scaled_by_one n :
  -255 <= n <= 255 -> F32.trunc (F32.of_int n * F32.of_int 1)%f32 = Some n.
Proof.
  intros Hn.
  assert (Hall : forallb (fun n =>
            match F32.trunc (F32.of_int n * F32.of_int 1)%f32 with
            | Some m => m =? n
            | None => false
            end) (seqZ (-255) 511) = true) by by vm_compute.
  rewrite forallb_forall in Hall. specialize (Hall n).
  rewrite <-list_elem_of_In, elem_of_seqZ in Hall. specialize (Hall ltac:(lia)).
  destruct (F32.trunc _) as [m|]; [|done]. by apply Z.eqb_eq in Hall as ->.
Qed.

(** X8: [lerp] at its ends, for colours whose channels are bytes.  At
    t = 0 it returns the first colour.  At t = 1 the value it converts
    to [byte] is, in each channel, exactly the difference of the two
    colours, negative where the second colour lies below the first; it
    returns the second colour when no channel of the second lies below
    the first. *)
Theorem X8_lerp_endpoints ca cb :
  byteColour ca -> byteColour cb ->
  lerp ca cb (F32.of_int 0) = Ok ca /\
  (red ca <= red cb -> green ca <= green cb -> blue ca <= blue cb ->
   lerp ca cb (F32.of_int 1) = Ok cb) /\
  F32.trunc (F32.of_int (red cb - red ca) * F32.of_int 1)%f32
  = Some (red cb - red ca) /\
  F32.trunc (F32.of_int (green cb - green ca) * F32.of_int 1)%f32
  = Some (green cb - green ca) /\
  F32.trunc (F32.of_int (blue cb - blue ca) * F32.of_int 1)%f32
  = Some (blue cb - blue ca).
Proof.
  unfold byteColour, isByte. intros (Hra & Hga & Hba) (Hrb & Hgb & Hbb).
  split; [|split].
  - unfold lerp. rewrite !scaled_by_zero by lia.
    cbn. unfold to_byte. rewrite !Z.add_0_r, !Z.mod_small by lia.
    by destruct ca.
  - intros Hr Hg Hb. unfold lerp, byte_of_float. rewrite !scaled_by_one by lia.
    rewrite !bool_decide_true by lia.
    cbn. unfold to_byte.
    replace (red ca + (red cb - red ca)) with (red cb) by lia.
    replace (green ca + (green cb - green ca)) with (green cb) by lia.
    replace (blue ca + (blue cb - blue ca)) with (blue cb) by lia.
    rewrite !Z.mod_small by lia. by destruct cb.
  - rewrite !scaled_by_one by lia. done.
Qed.

(** ** File names *)

Lemma string_length_app (s t : string) :
  String.length (s ++ t) = (String.length s + String.length t)%nat.
Proof. induction s as [|c s IH]; cbn; [done | by rewrite IH]. Qed.

Lemma string_app_inj_l (s t u : string) : (s ++ u = t ++ u)%string -> s = t.
Proof.
  revert t. induction s as [|c s IH]; intros [|c' t] Heq; cbn in Heq.
  - done.
  - apply (f_equal String.length) in Heq. cbn in Heq.
    rewrite string_length_app in Heq. lia.
  - apply (f_equal String.length) in Heq. cbn in Heq.
    rewrite string_length_app in Heq. lia.
  - injection Heq as -> Heq. f_equal. by apply IH.
Qed.

Lemma to_int_proper n :
  Z.to_int n ≠ Decimal.Pos Decimal.Nil /\ Z.to_int n ≠ Decimal.Neg Decimal.Nil.
Proof.
  destruct n as [|p|p]; cbn; [done| |]; split; try done; intros [= Hp];
    by apply DecimalPos.Unsigned.to_uint_nonnil in Hp.
Qed.

(** The decimal text [sprintf] writes reads back as the number. *)
Lemma sprintf_d_reads_back n :
  NilZero.int_of_string (sprintf_d n) = Some (Z.to_int n).
Proof.
  unfold sprintf_d. destruct (to_int_proper n). by apply NilZero.isi.
Qed.

Lemma sprintf_d_inj n m : sprintf_d n = sprintf_d m -> n = m.
Proof.
  intros Heq. apply (f_equal NilZero.int_of_string) in Heq.
  rewrite !sprintf_d_reads_back in Heq. injection Heq as Heq.
  apply (f_equal Z.of_int) in Heq. by rewrite !DecimalZ.of_to in Heq.
Qed.

Lemma fileName_inj i j : fileName i = fileName j -> i = j.
Proof.
  unfold fileName. intros Heq. cbn in Heq. injection Heq as Heq.
  by apply string_app_inj_l, sprintf_d_inj in Heq.
Qed.

Lemma for_range_empty lo hi body s :
  hi <= lo -> for_range lo hi body s = Ok (tt, s).
Proof. intros. unfold for_range. by rewrite seqZ_nil by lia. Qed.

Lemma for_range_skips lo hi body s :
  (forall i s, body i s = Ok (tt, s)) -> for_range lo hi body s = Ok (tt, s).
Proof.
  intros Hbody. unfold for_range, for_each.
  induction (seqZ lo (hi - lo)) as [|i l IH]; [done|].
  cbn [for_fold]. by rewrite (bind_run _ _ _ _ _ (Hbody i s)).
Qed.

Section RunProperties.
Context {cfg : Config}.

Lemma savedFiles_run :
  savedFiles runTrace
  = (fileName <$> filter (fun i => Z.rem i IterationCapture = 0) (seqZ 0 ITERATIONS))
    ++ [fileName ITERATIONS].
Proof.
  unfold runTrace, savedFiles.
  change (omap ?f (?e :: ?l)) with (omap f l).
  rewrite omap_app. f_equal.
  - apply (filter_captured IterationCapture (seqZ 0 ITERATIONS)
             (fun i => snapshot (settled i) i) fileName).
    intros i. apply savedFiles_snapshot.
  - apply savedFiles_snapshot.
Qed.

(** X10: no two pictures of a run share a file name, so no snapshot
    overwrites another: the decimal index in the name reads back as the
    iteration, the iterations saved in the loop are distinct and all
    below [ITERATIONS], the label of the last picture. *)
Theorem X10_file_names_distinct junk1 junk2 :
  0 <= WIDTH -> 0 <= HEIGHT -> 0 <= ITERATIONS -> 0 < IterationCapture ->
  renderableRun = true ->
  exists final,
    main (alloc_gives junk1) (alloc_gives junk2) = Ok (tt, final) /\
    NoDup (savedFiles (out final)) /\
    (forall name, name ∈ savedFiles (out final) ->
       exists i, 0 <= i <= ITERATIONS /\
                 name = ("Output" ++ sprintf_d i ++ ".bmp")%string /\
                 NilZero.int_of_string (sprintf_d i) = Some (Z.to_int i)) /\
    (forall i j, sprintf_d i = sprintf_d j -> i = j).
Proof.
  intros HW HH HN Hcap Hrun.
  destruct (main_run junk1 junk2 HW HH HN ltac:(lia) Hrun)
    as (final & Hmain & Hout & _).
  exists final. split; [done|]. rewrite Hout, savedFiles_run.
  split; [|split; [|apply sprintf_d_inj]].
  - apply NoDup_app. split; [|split].
    + apply NoDup_fmap_2; [intros i j; apply fileName_inj|].
      apply NoDup_filter, NoDup_seqZ.
    + intros name Hname Hlast. apply list_elem_of_singleton in Hlast as ->.
      apply list_elem_of_fmap in Hname as (i & Heq & Hi).
      apply fileName_inj in Heq as <-.
      apply list_elem_of_filter in Hi as [_ Hi]. apply elem_of_seqZ in Hi. lia.
    + apply NoDup_singleton.
  - intros name Hname. apply elem_of_app in Hname as [Hname|Hname].
    + apply list_elem_of_fmap in Hname as (i & -> & Hi).
      apply list_elem_of_filter in Hi as [_ Hi]. apply elem_of_seqZ in Hi.
      exists i. split; [lia|]. split; [done | apply sprintf_d_reads_back].
    + apply list_elem_of_singleton in Hname as ->.
      exists ITERATIONS. split; [lia|]. split; [done | apply sprintf_d_reads_back].
Qed.

(** X11: a run never reads what [malloc] left in the buffers: the calls
    into LibBMP are the same whatever the two blocks held, and after at
    least one iteration so is the final store. *)
Theorem X11_no_uninitialised_read junk1 junk2 junk1' junk2' :
  0 <= WIDTH -> 0 <= HEIGHT -> 0 <= ITERATIONS -> 0 < IterationCapture ->
  renderableRun = true ->
  exists final final',
    main (alloc_gives junk1) (alloc_gives junk2) = Ok (tt, final) /\
    main (alloc_gives junk1') (alloc_gives junk2') = Ok (tt, final') /\
    out final = out final' /\
    (0 < ITERATIONS -> final = final').
Proof.
  intros HW HH HN Hcap Hrun.
  destruct (main_run junk1 junk2 HW HH HN ltac:(lia) Hrun)
    as (final & Hmain & Hout & _ & g1 & g2 & Hmem & _ & _ & Hcur & Hold).
  destruct (main_run junk1' junk2' HW HH HN ltac:(lia) Hrun)
    as (final' & Hmain' & Hout' & _ & g1' & g2' & Hmem' & _ & _ & Hcur' & Hold').
  exists final, final'. split; [done|]. split; [done|].
  split; [by rewrite Hout, Hout'|].
  intros Hpos. specialize (Hold Hpos). specialize (Hold' Hpos).
  cbn [mem] in Hmem, Hmem'.
  destruct final as [m o], final' as [m' o']. cbn in *. subst o o' m m'.
  destruct (Z.rem ITERATIONS 2 =? 0); by subst.
Qed.

(** X12: on a grid without cells nothing is accessed: for any pointers,
    null included, [seedGrid] and [updateGrid] do nothing and
    [saveSimulation] only calls [SaveBMPFile]. *)
Theorem X12_empty_grid p q s iteration :
  WIDTH <= 0 \/ HEIGHT <= 0 ->
  seedGrid p s = Ok (tt, s) /\
  updateGrid p q s = Ok (tt, s) /\
  saveSimulation p iteration s
  = Ok (tt, {| mem := mem s;
               out := out s ++ [SaveBMPFile (fileName iteration) WIDTH HEIGHT] |}).
Proof.
  intros Hempty.
  assert (Hloops : forall body s,
            for_range 0 WIDTH (fun x => for_range 0 HEIGHT (fun y => body x y)) s
            = Ok (tt, s)).
  { intros body s0. destruct Hempty.
    - by apply for_range_empty.
    - apply for_range_skips. intros x s1. by apply for_range_empty. }
  split; [apply Hloops|]. split; [apply Hloops|].
  unfold saveSimulation. by rewrite (bind_run _ _ _ _ _ (Hloops _ s)).
Qed.
End RunProperties.

(** ** Stepping a buffer into itself *)

Section InPlace.
Context {cfg : Config}.

Lemma visitedBefore_start : visitedBefore 0 0 = [].
Proof. done. Qed.

Lemma visitedBefore_cell i j :
  0 <= j -> visitedBefore i (j + 1) = visitedBefore i j ++ [(i, j)].
Proof.
  intros. unfold visitedBefore. rewrite seqZ_snoc_bind by lia.
  by rewrite <-!app_assoc.
Qed.

Lemma visitedBefore_row i :
  0 <= i -> visitedBefore (i + 1) 0 = visitedBefore i HEIGHT.
Proof.
  intros. unfold visitedBefore. rewrite seqZ_snoc_bind by lia.
  cbn. by rewrite app_nil_r.
Qed.

Lemma visitedBefore_end : visitedBefore WIDTH 0 = scan.
Proof. unfold visitedBefore, scan. cbn. by rewrite app_nil_r. Qed.

Lemma wellSized_sweepCell g p : wellSized g -> wellSized (sweepCell g p).
Proof. unfold wellSized, sweepCell. by rewrite length_insert. Qed.

Lemma wellSized_swept g l : wellSized g -> wellSized (foldl sweepCell g l).
Proof.
  intros Hg. apply (foldl_invariant wellSized); [done|].
  intros acc p _. apply wellSized_sweepCell.
Qed.

(** [calculateNewValue] writing into the cell it reads. *)
Lemma calculateNewValue_in_place s l g x y :
  mem s !! l = Some g -> wellSized g -> inGrid x y ->
  calculateNewValue (Some l) (Some l, xyToIndex x y) x y s
  = Ok (tt, {| mem := <[l := sweepCell g (x, y)]> (mem s); out := out s |}).
Proof.
  intros Hl Hg Hin. unfold calculateNewValue.
  rewrite (bind_run _ _ _ _ _ (difference_run s l g x y Hl Hg Hin)).
  rewrite (bind_run _ _ _ _ _ (load_cell s l g x y Hl Hg Hin)).
  rewrite (bind_run _ _ _ _ _ (load_cell s l g x y Hl Hg Hin)).
  pose proof (xyToIndex_range x y Hin) as Hidx.
  pose proof (lookup_cellAt g x y Hg Hin) as Hc.
  pose proof (lookup_lt_Some _ _ _ Hl) as Hlt.
  pose proof (lookup_lt_Some _ _ _ Hc) as Hlt'.
  unfold store_a, store_b.
  rewrite (bind_run _ _ _ _ _
             (store_with_run _ s l g _ _ Hl (proj1 Hidx) Hc)).
  erewrite bind_run.
  2:{ eapply load_run; [cbn; by apply list_lookup_insert_eq | lia |].
      by apply list_lookup_insert_eq. }
  erewrite store_with_run;
    [| cbn; by apply list_lookup_insert_eq | lia | by apply list_lookup_insert_eq].
  cbn. unfold sweepCell, step. cbn [fst snd].
  by rewrite !list_insert_insert_eq.
Qed.

(** X13: called with the same buffer as source and destination,
    [updateGrid] still completes, but performs the step in place: cell
    after cell in scan order, each computed from the buffer as the cells
    before it left it. *)
Theorem X13_in_place_sweep s l g :
  0 <= WIDTH -> 0 <= HEIGHT ->
  mem s !! l = Some g -> wellSized g ->
  updateGrid (Some l) (Some l) s
  = Ok (tt, {| mem := <[l := sweep g]> (mem s); out := out s |}) /\
  wellSized (sweep g) /\
  (forall pre p,
     foldl sweepCell g (pre ++ [p])
     = <[Z.to_nat (xyToIndex p.1 p.2) :=
           step (foldl sweepCell g pre) p.1 p.2]> (foldl sweepCell g pre)).
Proof.
  intros HW HH Hl Hg.
  pose proof (lookup_lt_Some _ _ _ Hl) as Hlt.
  split; [|split; [by apply wellSized_swept|]].
  2:{ intros pre p. by rewrite foldl_app. }
  unfold updateGrid, sweep.
  set (Inv := fun (i j : Z) (s' : state) =>
    out s' = out s /\
    mem s' = <[l := foldl sweepCell g (visitedBefore i j)]> (mem s)).
  assert (Hwp : wp (for_range 0 WIDTH (fun x => for_range 0 HEIGHT (fun y =>
                      calculateNewValue (Some l) (Some l, xyToIndex x y) x y)))
                  s (fun _ s' => Inv WIDTH 0 s') never).
  { apply (wp_for_range (fun i s' => Inv i 0 s')); [done | |].
    - split; [done|]. rewrite visitedBefore_start. cbn.
      by rewrite list_insert_id.
    - intros i s1 Hi HInv.
      eapply wp_mono;
        [apply (wp_for_range (fun j s' => Inv i j s') never); [done | done |] | | done].
      + intros j s2 Hj [Hout Hmem].
        assert (Hij : inGrid i j) by done.
        eapply wp_eq.
        { apply (calculateNewValue_in_place s2 l
                   (foldl sweepCell g (visitedBefore i j))); [|by apply wellSized_swept|done].
          rewrite Hmem. by apply list_lookup_insert_eq. }
        split; [done|]. cbn [mem].
        rewrite Hmem, list_insert_insert_eq, visitedBefore_cell by lia.
        by rewrite foldl_app.
      + intros _ s2 [Hout Hmem]. split; [done|].
        by rewrite visitedBefore_row by lia. }
  apply wp_total in Hwp as ([] & s' & -> & Hout & Hmem).
  rewrite visitedBefore_end in Hmem.
  destruct s' as [m o]. cbn in *. by subst.
Qed.
End InPlace.

(** ** Edge configurations of the driver *)

Section DriverEdges.
Context {cfg : Config}.

(** X14: the two edge settings of the loop.  With [ITERATIONS] = 0 the
    loop body never runs: the run seeds the first buffer and saves the
    single picture Output0.bmp of the seed, whatever [IterationCapture]
    is.  With at least one iteration and [IterationCapture] = 0 the run
    stops in its first iteration at the remainder by zero. *)
Theorem X14_driver_edges junk1 junk2 :
  0 <= WIDTH -> 0 <= HEIGHT ->
  (ITERATIONS = 0 ->
   exists final,
     main (alloc_gives junk1) (alloc_gives junk2) = Ok (tt, final) /\
     mem final !! 0%nat = Some seed /\
     savedFiles (out final) = ["Output0.bmp"%string]) /\
  (0 < ITERATIONS -> IterationCapture = 0 ->
   main (alloc_gives junk1) (alloc_gives junk2) = Undefined DivisionByZero).
Proof.
  intros HW HH.
  set (g1 := junk1 <$> seq 0 (Z.to_nat (WIDTH * HEIGHT))).
  set (g2 := junk2 <$> seq 0 (Z.to_nat (WIDTH * HEIGHT))).
  assert (Hg1 : wellSized g1).
  { unfold wellSized, g1. rewrite length_fmap, length_seq. nia. }
  assert (Hg2 : wellSized g2).
  { unfold wellSized, g2. rewrite length_fmap, length_seq. nia. }
  split.
  - intros HN. unfold main, startSimulation.
    erewrite bind_run by done. erewrite bind_run by done.
    erewrite bind_run by done. cbn [initial_state mem out app length].
    fold g1 g2.
    erewrite bind_run by (by apply (seedGrid_run _ 0%nat g1)).
    cbn [mem out insert list_insert].
    erewrite bind_run by (apply for_range_empty; lia).
    rewrite HN. change (Z.rem 0 2 =? 0) with true. cbn match.
    eexists. split.
    + apply (saveSimulation_run _ 0%nat seed); try done.
      * by apply wellSized_seed.
      * apply renderable_seed.
    + split; [done|]. cbn [out app].
      unfold savedFiles. change (omap ?f (?e :: ?l)) with (omap f l).
      apply savedFiles_snapshot.
  - intros HN Hcap. unfold main, startSimulation.
    erewrite bind_run by done. erewrite bind_run by done.
    erewrite bind_run by done. cbn [initial_state mem out app length].
    fold g1 g2.
    erewrite bind_run by (by apply (seedGrid_run _ 0%nat g1)).
    cbn [mem out insert list_insert].
    apply bind_fault. apply for_range_first_fault; [done|].
    change (Z.rem 0 2 =? 0) with true. cbn match.
    erewrite bind_run.
    2:{ apply (updateGrid_run _ 0%nat 1%nat seed g2); try done.
        by apply wellSized_seed. }
    apply bind_fault. unfold irem, lift. by rewrite Hcap.
Qed.

End DriverEdges.

(** ** Concentrations that are not numbers *)


(** ** The further properties on the small runs *)

Lemma X5_witness :
  exists s1' s2' n1 n2,
    @updateGrid small_config (Some 0%nat) (Some 1%nat) small_state = Ok (tt, s1') /\
    @updateGrid small_config (Some 0%nat) (Some 1%nat) calm_state = Ok (tt, s2') /\
    mem s1' !! 1%nat = Some n1 /\ mem s2' !! 1%nat = Some n2 /\
    @cellAt small_config n1 0 0 = @cellAt small_config n2 0 0.
Proof.
  apply (@X5_stencil_is_local small_config small_state calm_state 0%nat 1%nat
           small_seed calm_grid (junk <$> seq 0 16) (junk <$> seq 0 16) 0 0).
  - simpl. lia.
  - simpl. lia.
  - lia.
  - unfold inGrid. simpl. lia.
  - reflexivity.
  - reflexivity.
  - reflexivity.
  - reflexivity.
  - reflexivity.
  - reflexivity.
  - reflexivity.
  - reflexivity.
  - intros u v [Hu Hv] [Hu' Hv']. simpl in Hu, Hv.
    assert (Hcu : u = 0 \/ u = 1) by lia. assert (Hcv : v = 0 \/ v = 1) by lia.
    destruct Hcu as [-> | ->], Hcv as [-> | ->]; vm_compute; reflexivity.
Defined.

Lemma X6_witness :
  exists s' next,
    @updateGrid small_config (Some 0%nat) (Some 1%nat) calm_state = Ok (tt, s') /\
    mem s' !! 1%nat = Some next /\
    forall x y, @inGrid small_config x y ->
      b (@cellAt small_config next x y) = F32.of_int 0.
Proof.
  apply (@X6_no_B_from_nothing small_config calm_state 0%nat 1%nat
           calm_grid (junk <$> seq 0 16)).
  - simpl. lia.
  - simpl. lia.
  - lia.
  - reflexivity.
  - reflexivity.
  - reflexivity.
  - reflexivity.
  - intros u v [Hu Hv]. simpl in Hu, Hv.
    assert (Hcu : u = 0 \/ u = 1 \/ u = 2 \/ u = 3) by lia.
    assert (Hcv : v = 0 \/ v = 1 \/ v = 2 \/ v = 3) by lia.
    destruct Hcu as [-> | [-> | [-> | ->]]], Hcv as [-> | [-> | [-> | ->]]];
      vm_compute; split; reflexivity.
Defined.

Lemma X7_witness :
  exists s' next,
    @updateGrid small_config (Some 0%nat) (Some 1%nat) calm_state = Ok (tt, s') /\
    mem s' !! 1%nat = Some next /\
    @cellAt small_config next 1 1 = undisturbed.
Proof.
  destruct (@X7_calm_region small_config calm_state 0%nat 1%nat
              calm_grid (junk <$> seq 0 16) 1 1)
    as (s' & next & Hrun & Hnext & Hinterior & _).
  - simpl. lia.
  - simpl. lia.
  - lia.
  - reflexivity.
  - reflexivity.
  - reflexivity.
  - reflexivity.
  - unfold inGrid. simpl. lia.
  - intros u v _ [Hu Hv].
    assert (Hcu : u = 0 \/ u = 1 \/ u = 2) by lia.
    assert (Hcv : v = 0 \/ v = 1 \/ v = 2) by lia.
    destruct Hcu as [-> | [-> | ->]], Hcv as [-> | [-> | ->]];
      vm_compute; reflexivity.
  - exists s', next. split; [exact Hrun|]. split; [exact Hnext|].
    apply Hinterior. unfold interior. simpl. lia.
Defined.

Lemma X8_witness :
  lerp colourA colourB (F32.of_int 0) = Ok colourA /\
  lerp colourA colourB (F32.of_int 1) = Ok colourB /\
  F32.trunc (F32.of_int (green colourA - green colourB) * F32.of_int 1)%f32
  = Some (-230).
Proof.
  assert (HA : byteColour colourA) by (unfold byteColour, isByte; simpl; lia).
  assert (HB : byteColour colourB) by (unfold byteColour, isByte; simpl; lia).
  destruct (X8_lerp_endpoints colourA colourB HA HB) as (Hzero & Hone & _).
  destruct (X8_lerp_endpoints colourB colourA HB HA) as (_ & _ & _ & Hdown & _).
  split; [exact Hzero|]. split.
  - apply Hone; simpl; lia.
  - exact Hdown.
Defined.

Lemma X9_witness :
  exists s' sg,
    @seedGrid small_config (Some 1%nat) small_state = Ok (tt, s') /\
    mem s' !! 1%nat = Some sg /\
    @cellAt small_config sg 2 2 = seeded.
Proof.
  destruct (@X9_seed_symmetry small_config small_state 1%nat (junk <$> seq 0 16))
    as (s' & sg & Hrun & Hsg & _ & _ & _ & _ & _ & _ & Hcentre & _).
  - simpl. lia.
  - simpl. lia.
  - simpl. lia.
  - reflexivity.
  - reflexivity.
  - exists s', sg. split; [exact Hrun|]. split; [exact Hsg|].
    apply Hcentre.
    + simpl. lia.
    + unfold inGrid. vm_compute. intuition discriminate.
Defined.

Lemma X10_witness :
  exists final,
    @main small_config (alloc_gives junk) (alloc_gives junk) = Ok (tt, final) /\
    NoDup (savedFiles (out final)).
Proof.
  destruct (@X10_file_names_distinct small_config junk junk)
    as (final & Hrun & Hnodup & _).
  - simpl. lia.
  - simpl. lia.
  - simpl. lia.
  - simpl. lia.
  - vm_compute. reflexivity.
  - exists final. split; [exact Hrun | exact Hnodup].
Defined.

Lemma X11_witness :
  exists final final',
    @main small_config (alloc_gives junk) (alloc_gives junk) = Ok (tt, final) /\
    @main small_config (alloc_gives (fun _ => overshoot)) (alloc_gives (fun _ => seeded))
    = Ok (tt, final') /\
    final = final'.
Proof.
  destruct (@X11_no_uninitialised_read small_config junk junk
              (fun _ => overshoot) (fun _ => seeded))
    as (final & final' & Hrun & Hrun' & _ & Hsame).
  - simpl. lia.
  - simpl. lia.
  - simpl. lia.
  - simpl. lia.
  - vm_compute. reflexivity.
  - exists final, final'. split; [exact Hrun|]. split; [exact Hrun'|].
    apply Hsame. simpl. lia.
Defined.

Lemma X12_witness :
  @seedGrid empty_config NULL initial_state = Ok (tt, initial_state) /\
  @updateGrid empty_config NULL NULL initial_state = Ok (tt, initial_state) /\
  @saveSimulation empty_config NULL 3 initial_state
  = Ok (tt, {| mem := []; out := [SaveBMPFile "Output3.bmp" 0 3] |}).
Proof.
  apply (@X12_empty_grid empty_config NULL NULL initial_state 3).
  left. simpl. lia.
Defined.

Lemma X13_witness :
  @updateGrid small_config (Some 0%nat) (Some 0%nat) (single small_seed)
  = Ok (tt, {| mem := [@sweep small_config small_seed]; out := [] |}).
Proof.
  destruct (@X13_in_place_sweep small_config (single small_seed) 0%nat small_seed)
    as (Hrun & _).
  - simpl. lia.
  - simpl. lia.
  - reflexivity.
  - reflexivity.
  - exact Hrun.
Defined.

Lemma X14_witness :
  exists final,
    @main still_config (alloc_gives junk) (alloc_gives junk) = Ok (tt, final) /\
    savedFiles (out final) = ["Output0.bmp"%string].
Proof.
  destruct (@X14_driver_edges still_config junk junk) as (Hstill & _).
  - simpl. lia.
  - simpl. lia.
  - destruct (Hstill eq_refl) as (final & Hrun & _ & Hfiles).
    exists final. split; [exact Hrun | exact Hfiles].
Defined.

